(** * dynamodb-stream-pipe: the record transformation layer and the polling loop

    A shallow embedding of [record.go] (NewRecord, NewStreamRecord,
    NewAttributeValue, NewAttributeValueMap, NewAttributeValueList), of
    [pipe.go] (NewApp, App.Run) and of [cmd/pipe/main.go] (_main), with
    the properties the specification states about them and further
    properties read off the code.

    Conventions of the embedding.
    - A Go pointer, slice or map held in a struct field is an [option]:
      [None] is Go's nil.  Dereferencing nil panics, which the embedding
      keeps as an explicit outcome.
    - The members of a slice or of a map are values: the SDK's decoder
      allocates every member it decodes.
    - [int64] values are only copied, never computed with, so they are [Z].
    - Logging is left out, except for the dereference one log line makes
      ([log.Printf("iterator %s", *itr)]).
    - The AWS endpoints and the operating system are an environment
      ([World]) that answers each request; everything the program asks of
      it is recorded in a chronological history of events. *)

From Stdlib Require Import ZArith Ascii.
From stdpp Require Import gmap strings list fin_maps sorting.

Set Warnings "-register-all".
Set Default Proof Using "Type".

Local Open Scope string_scope.
Local Open Scope Z_scope.

(** ** Go values *)

(** [[]T]: a nil slice or a sequence of members. *)
Definition slice (A : Type) : Type := option (list A).

(** [map[string]T]: a nil map or a finite map. *)
Definition gomap (A : Type) : Type := option (gmap string A).

(** What [for _, x := range s] iterates over; nothing for a nil slice. *)
Definition range {A} (s : slice A) : list A := default [] s.

(** What [for k, v := range m] iterates over; nothing for a nil map. *)
Definition range_map {A} (m : gomap A) : gmap string A := default ∅ m.

(** Go's [len] of a map. *)
Definition len_map {A} (m : gomap A) : nat := size (range_map m).

(** [time.Time], as Go keeps it: whole seconds since the Unix epoch and the
    nanoseconds within that second. *)
Record Time := { wall_sec : Z; wall_nsec : Z }.

(** [func (t Time) Unix() int64] *)
Definition Unix (t : Time) : Z := wall_sec t.

(** Run-time panics of the Go program. *)
Inductive panic :=
| NilDereference
| IndexOutOfRange (index : Z) (length : nat).

(** A computation that either yields a value or panics. *)
Inductive result (A : Type) :=
| Ok (a : A)
| Panic (p : panic).
Arguments Ok {A} a.
Arguments Panic {A} p.

(** [*p] *)
Definition deref {A} (p : option A) : result A :=
  match p with Some a => Ok a | None => Panic NilDereference end.

(** ** The SDK's types (github.com/aws/aws-sdk-go) *)

Module dynamodb.

(** [dynamodb.AttributeValue]: one struct with ten optional fields. *)
Inductive AttributeValue := Build_AttributeValue {
  B : slice Byte.byte;
  BOOL : option bool;
  BS : slice (slice Byte.byte);
  L : slice AttributeValue;
  M : gomap AttributeValue;
  N : option string;
  NS : slice string;
  NULL : option bool;
  S : option string;
  SS : slice string }.

Record TableDescription := { LatestStreamArn : option string }.
Record DescribeTableInput := { TableName : option string }.
Record DescribeTableOutput := { Table : option TableDescription }.

End dynamodb.

Module dynamodbstreams.

Record Identity := { PrincipalId : option string; Type_ : option string }.

Record StreamRecord := {
  ApproximateCreationDateTime : option Time;
  Keys : gomap dynamodb.AttributeValue;
  NewImage : gomap dynamodb.AttributeValue;
  OldImage : gomap dynamodb.AttributeValue;
  SequenceNumber : option string;
  SizeBytes : option Z;
  StreamViewType : option string }.

Record Record_ := {
  AwsRegion : option string;
  Dynamodb : option StreamRecord;
  EventID : option string;
  EventName : option string;
  EventSource : option string;
  EventVersion : option string;
  UserIdentity : option Identity }.

Record Shard := { ShardId : option string }.
Record StreamDescription := { Shards : list Shard }.
Record DescribeStreamInput := { DescribeStream_StreamArn : option string }.
Record DescribeStreamOutput := { StreamDescription_ : option StreamDescription }.

Record GetShardIteratorInput := {
  GetShardIterator_ShardId : option string;
  GetShardIterator_StreamArn : option string;
  ShardIteratorType : option string }.
Record GetShardIteratorOutput := { ShardIterator : option string }.

Record GetRecordsInput := { GetRecords_ShardIterator : option string }.
Record GetRecordsOutput := {
  NextShardIterator : option string;
  Records : list Record_ }.

(** The SDK's constant for the oldest retained position of a shard. *)
Definition ShardIteratorTypeTrimHorizon : string := "TRIM_HORIZON".

End dynamodbstreams.

(** ** record.go: the output types *)

(** The value of an [interface{}] produced by [NewAttributeValue]: nil, or
    one of the ten single-field structs [AttributeValueB] ...
    [AttributeValueSS]. *)
Inductive iface :=
| nil_iface
| AttributeValueB (B : slice Byte.byte)
| AttributeValueBOOL (BOOL : option bool)
| AttributeValueBS (BS : slice (slice Byte.byte))
| AttributeValueL (L : slice iface)
| AttributeValueM (M : gomap iface)
| AttributeValueN (N : option string)
| AttributeValueNS (NS : slice string)
| AttributeValueNULL (NULL : option bool)
| AttributeValueS (S : option string)
| AttributeValueSS (SS : slice string).

Record StreamRecord := {
  ApproximateCreationDateTime : option Z;
  Keys : gomap iface;
  NewImage : gomap iface;
  OldImage : gomap iface;
  SequenceNumber : option string;
  SizeBytes : option Z;
  StreamViewType : option string }.

Record Record_ := {
  AwsRegion : option string;
  Dynamodb : option StreamRecord;
  EventID : option string;
  EventName : option string;
  EventSource : option string;
  EventVersion : option string;
  EventSourceArn : option string;
  UserIdentity : option dynamodbstreams.Identity }.

Record DynamoDBEvent := { Records : slice Record_ }.

(** ** record.go: the encoder *)

(** [NewAttributeValue]: a chain of presence checks, in the order B, BOOL,
    BS, N, NS, NULL, S, SS, L, M; the first field that is not nil decides.
    For the two recursive variants it calls [NewAttributeValueList] and
    [NewAttributeValueMap] on a slice or map known not to be nil; their
    loops are written in place here, and the equations
    [NewAttributeValue_L] and [NewAttributeValue_M] below restate these
    two branches through the named functions. *)
Fixpoint NewAttributeValue (a : dynamodb.AttributeValue) : iface :=
  if dynamodb.B a is Some _ then AttributeValueB (dynamodb.B a) else
  if dynamodb.BOOL a is Some _ then AttributeValueBOOL (dynamodb.BOOL a) else
  if dynamodb.BS a is Some _ then AttributeValueBS (dynamodb.BS a) else
  if dynamodb.N a is Some _ then AttributeValueN (dynamodb.N a) else
  if dynamodb.NS a is Some _ then AttributeValueNS (dynamodb.NS a) else
  if dynamodb.NULL a is Some _ then AttributeValueNULL (dynamodb.NULL a) else
  if dynamodb.S a is Some _ then AttributeValueS (dynamodb.S a) else
  if dynamodb.SS a is Some _ then AttributeValueSS (dynamodb.SS a) else
  if dynamodb.L a is Some l then AttributeValueL (Some (NewAttributeValue <$> l)) else
  if dynamodb.M a is Some m then AttributeValueM (Some (NewAttributeValue <$> m)) else
  nil_iface.

(** [NewAttributeValueMap]: a fresh map with every value encoded. *)
Definition NewAttributeValueMap (m : gomap dynamodb.AttributeValue) : gomap iface :=
  Some (NewAttributeValue <$> range_map m).

(** [NewAttributeValueList]: a fresh slice of the same length with every
    member encoded. *)
Definition NewAttributeValueList (l : slice dynamodb.AttributeValue) : slice iface :=
  Some (NewAttributeValue <$> range l).

(** [NewStreamRecord]: the fields of the composite literal are evaluated in
    order, so the timestamp is dereferenced before anything else.  The
    literal has no entry for [StreamViewType], which stays nil. *)
Definition NewStreamRecord (r : option dynamodbstreams.StreamRecord) : result StreamRecord :=
  match deref r with
  | Panic p => Panic p
  | Ok r =>
    match deref (dynamodbstreams.ApproximateCreationDateTime r) with
    | Panic p => Panic p
    | Ok t =>
      Ok {| ApproximateCreationDateTime := Some (Unix t);
            Keys := NewAttributeValueMap (dynamodbstreams.Keys r);
            NewImage := NewAttributeValueMap (dynamodbstreams.NewImage r);
            OldImage := NewAttributeValueMap (dynamodbstreams.OldImage r);
            SequenceNumber := dynamodbstreams.SequenceNumber r;
            SizeBytes := dynamodbstreams.SizeBytes r;
            StreamViewType := None |}
    end
  end.

(** [NewRecord]; [EventSourceArn] is not in the literal and stays nil until
    [Run] assigns it. *)
Definition NewRecord (r : dynamodbstreams.Record_) : result Record_ :=
  match NewStreamRecord (dynamodbstreams.Dynamodb r) with
  | Panic p => Panic p
  | Ok d =>
    Ok {| AwsRegion := dynamodbstreams.AwsRegion r;
          Dynamodb := Some d;
          EventID := dynamodbstreams.EventID r;
          EventName := dynamodbstreams.EventName r;
          EventSource := dynamodbstreams.EventSource r;
          EventVersion := dynamodbstreams.EventVersion r;
          EventSourceArn := None;
          UserIdentity := dynamodbstreams.UserIdentity r |}
  end.

(** ** encoding/json, as far as [Run] uses it

    [json.MarshalIndent] renders a value as indented text; the embedding
    keeps the document as the tree that text denotes.  A struct becomes an
    object whose members follow the declaration order of the fields, named
    by the field unless a [json] tag renames it; a field tagged
    [omitempty] is left out when it is empty (for a map: when it has no
    entry, nil or not).  A nil pointer, slice, map or interface becomes
    [null]; a [[]byte] becomes a string holding its base64 text; the
    entries of a map are written in the order of their keys. *)

Inductive json :=
| JNull
| JBool (b : bool)
| JNumber (z : Z)
| JString (s : string)
| JBase64 (bytes : list Byte.byte)
| JArray (members : list json)
| JObject (members : list (string * json)).

Definition key_le (x y : string * json) : Prop := String.leb x.1 y.1 = true.

#[local] Instance key_le_dec x y : Decision (key_le x y).
Proof. unfold key_le. apply _. Defined.

Definition sort_keys (l : list (string * json)) : list (string * json) :=
  merge_sort key_le l.

Definition marshal_ptr {A} (f : A → json) (p : option A) : json :=
  match p with Some a => f a | None => JNull end.

Definition marshal_bytes (b : slice Byte.byte) : json := marshal_ptr JBase64 b.

Definition marshal_slice {A} (f : A → json) (s : slice A) : json :=
  match s with Some l => JArray (f <$> l) | None => JNull end.

Definition marshal_map {A} (f : A → json) (m : gomap A) : json :=
  match m with
  | Some m => JObject (sort_keys (map_to_list (f <$> m)))
  | None => JNull
  end.

(** A struct field without [omitempty]. *)
Definition field (name : string) (v : json) : list (string * json) := [(name, v)].

(** A map-typed struct field tagged [omitempty]. *)
Definition field_omitempty {A} (name : string) (f : A → json) (m : gomap A)
  : list (string * json) :=
  if decide (len_map m = 0%nat) then [] else [(name, marshal_map f m)].

Fixpoint marshal_iface (v : iface) : json :=
  match v with
  | nil_iface => JNull
  | AttributeValueB b => JObject (field "B" (marshal_bytes b))
  | AttributeValueBOOL b => JObject (field "BOOL" (marshal_ptr JBool b))
  | AttributeValueBS bs => JObject (field "BS" (marshal_slice marshal_bytes bs))
  | AttributeValueL l => JObject (field "L" (marshal_slice marshal_iface l))
  | AttributeValueM m => JObject (field "M" (marshal_map marshal_iface m))
  | AttributeValueN n => JObject (field "N" (marshal_ptr JString n))
  | AttributeValueNS ns => JObject (field "NS" (marshal_slice JString ns))
  | AttributeValueNULL b => JObject (field "NULL" (marshal_ptr JBool b))
  | AttributeValueS s => JObject (field "S" (marshal_ptr JString s))
  | AttributeValueSS ss => JObject (field "SS" (marshal_slice JString ss))
  end.

Definition marshal_StreamRecord (s : StreamRecord) : json :=
  JObject (
    field "ApproximateCreationDateTime" (marshal_ptr JNumber (ApproximateCreationDateTime s)) ++
    field_omitempty "Keys" marshal_iface (Keys s) ++
    field_omitempty "NewImage" marshal_iface (NewImage s) ++
    field_omitempty "OldImage" marshal_iface (OldImage s) ++
    field "SequenceNumber" (marshal_ptr JString (SequenceNumber s)) ++
    field "SizeBytes" (marshal_ptr JNumber (SizeBytes s)) ++
    field "StreamViewType" (marshal_ptr JString (StreamViewType s))).

Definition marshal_Identity (i : dynamodbstreams.Identity) : json :=
  JObject (
    field "PrincipalId" (marshal_ptr JString (dynamodbstreams.PrincipalId i)) ++
    field "Type" (marshal_ptr JString (dynamodbstreams.Type_ i))).

Definition marshal_Record (r : Record_) : json :=
  JObject (
    field "AwsRegion" (marshal_ptr JString (AwsRegion r)) ++
    field "Dynamodb" (marshal_ptr marshal_StreamRecord (Dynamodb r)) ++
    field "EventID" (marshal_ptr JString (EventID r)) ++
    field "EventName" (marshal_ptr JString (EventName r)) ++
    field "EventSource" (marshal_ptr JString (EventSource r)) ++
    field "EventVersion" (marshal_ptr JString (EventVersion r)) ++
    field "eventSourceARN" (marshal_ptr JString (EventSourceArn r)) ++
    field "UserIdentity" (marshal_ptr marshal_Identity (UserIdentity r))).

Definition marshal_DynamoDBEvent (e : DynamoDBEvent) : json :=
  JObject (field "Records" (marshal_slice marshal_Record (Records e))).

(** The members of a document that is an object; none otherwise. *)
Definition members_of (j : json) : list (string * json) :=
  match j with JObject ms => ms | _ => [] end.

(** The names of the members of an object, in order. *)
Definition keys_of (j : json) : list string := (members_of j).*1.

(** The first member with a given name in a list of members. *)
Fixpoint assoc (name : string) (ms : list (string * json)) : option json :=
  match ms with
  | [] => None
  | (k, v) :: ms => if decide (k = name) then Some v else assoc name ms
  end.

(** The member of an object under a name, if it has one. *)
Definition member (name : string) (j : json) : option json :=
  assoc name (members_of j).

(** The members of a document that is an array; none otherwise. *)
Definition elements_of (j : json) : list json :=
  match j with JArray l => l | _ => [] end.

(** In an envelope, the body of its first record: [Records[0].Dynamodb]. *)
Definition body_of (doc : json) : option json :=
  rs ← member "Records" doc;
  r ← head (elements_of rs);
  member "Dynamodb" r.

(** ** Errors (github.com/pkg/errors) *)

Module errors.

(** An error is made by [errors.New], by [errors.Wrap] around another
    one, or outside this program: by the SDK, or by os/exec, whose
    [ExitError] reports a process that did not exit with status 0. *)
Inductive error :=
| External (what : string)
| ExitError (status : Z)
| New (msg : string)
| Wrap (cause : error) (msg : string).

End errors.
Abbreviation error := errors.error.

(** ** The environment of [Run] *)

(** What an SDK call returns: an output or an error. *)
Inductive reply (A : Type) :=
| Reply (out : A)
| Fail (err : error).
Arguments Reply {A} out.
Arguments Fail {A} err.

(** [exec.Command(name, args...)] together with what was written to its
    standard input before it was started.  [Run] discards the results of
    [StdinPipe], [io.WriteString] and [Close]; the embedding takes the
    pipe to be there and to hold the document. *)
Record Cmd := { Path : string; Args : list string; Stdin : json }.

(** What becomes of the sink process of one invocation: it cannot be
    started; it runs and exits with a status, having printed its output;
    or it runs but its output cannot be collected. *)
Inductive process :=
| NotStarted (why : string)
| Exited (status : Z) (output : list Byte.byte)
| Unread (why : string) (output : list Byte.byte).

(** [cmd.CombinedOutput()]: the combined standard output and standard
    error of the process, and an error unless it was started, its output
    was read and it exited with status 0. *)
Definition CombinedOutput (p : process) : list Byte.byte * option error :=
  match p with
  | NotStarted why => ([], Some (errors.External why))
  | Exited status output =>
    (output, if decide (status = 0) then None else Some (errors.ExitError status))
  | Unread why output => (output, Some (errors.External why))
  end.

(** The process ran to its end and exited with status 0. *)
Definition exits_zero (p : process) : bool :=
  match p with
  | Exited 0 _ => true
  | _ => false
  end.

(** What the program asks of its environment, in the order it asks. *)
Inductive event :=
| CallDescribeTable (input : dynamodb.DescribeTableInput)
| CallDescribeStream (input : dynamodbstreams.DescribeStreamInput)
| CallGetShardIterator (input : dynamodbstreams.GetShardIteratorInput)
| CallGetRecords (input : dynamodbstreams.GetRecordsInput)
| CallCombinedOutput (cmd : Cmd)
| Sleep (seconds : Z).

(** The environment.  The three acquisition calls answer by their input.
    [GetRecords] is a script: its n-th entry answers the n-th call, and a
    call past the end of the script gets no answer.  [sink] says what
    becomes of the process started for a command; it may depend on
    everything that happened before. *)
Record World := {
  DescribeTable : dynamodb.DescribeTableInput → reply dynamodb.DescribeTableOutput;
  DescribeStream : dynamodbstreams.DescribeStreamInput → reply dynamodbstreams.DescribeStreamOutput;
  GetShardIterator : dynamodbstreams.GetShardIteratorInput → reply dynamodbstreams.GetShardIteratorOutput;
  GetRecords : list (reply dynamodbstreams.GetRecordsOutput);
  sink : list event → Cmd → process }.

(** How a run of the program ends: [Run] returns (nil or an error), the
    program panics, or the program waits for an answer the script of the
    environment does not have. *)
Inductive outcome :=
| Returned (err : option error)
| Panicked (p : panic)
| Blocked.

(** One stretch of the program: it goes on with a value or it ends the
    run; either way it extends the history. *)
Inductive step (A : Type) :=
| Next (a : A)
| Stop (o : outcome).
Arguments Next {A} a.
Arguments Stop {A} o.

Definition prog (A : Type) : Type := list event → step A * list event.

#[local] Instance prog_ret : MRet prog := λ A a h, (Next a, h).

#[local] Instance prog_bind : MBind prog := λ A B f m h,
  match m h with
  | (Next a, h') => f a h'
  | (Stop o, h') => (Stop o, h')
  end.

(** [return err] *)
Definition return_ {A} (err : option error) : prog A := λ h, (Stop (Returned err), h).

Definition blocked {A} : prog A := λ h, (Stop Blocked, h).

(** A step of the pure part of the program, which may panic. *)
Definition lift {A} (r : result A) : prog A := λ h,
  match r with
  | Ok a => (Next a, h)
  | Panic p => (Stop (Panicked p), h)
  end.

Definition emit (e : event) : prog unit := λ h, (Next tt, (h ++ [e])%list).

(** [if err != nil { return errors.Wrap(err, msg) }] *)
Definition check {A} (r : reply A) (msg : string) : prog A :=
  match r with
  | Reply out => mret out
  | Fail err => return_ (Some (errors.Wrap err msg))
  end.

(** [time.Sleep(n * time.Second)] *)
Definition sleep (n : Z) : prog unit := emit (Sleep n).

(** [s[i]] *)
Definition index {A} (s : list A) (i : Z) : result A :=
  if decide (0 ≤ i) then
    match s !! Z.to_nat i with
    | Some x => Ok x
    | None => Panic (IndexOutOfRange i (length s))
    end
  else Panic (IndexOutOfRange i (length s)).

(** [for _, x := range s { body }] *)
Fixpoint for_range {A} (s : list A) (body : A → prog unit) : prog unit :=
  match s with
  | [] => mret tt
  | x :: s => body x;; for_range s body
  end.

Definition call_CombinedOutput (w : World) (cmd : Cmd) : prog (list Byte.byte * option error) :=
  λ h, (Next (CombinedOutput (sink w h cmd)), (h ++ [CallCombinedOutput cmd])%list).

(** ** pipe.go *)

Record App := { table : string; command : string; args : list string }.

(** The envelope [Run] builds for one record: [NewRecord], the assignment
    of [EventSourceArn], and the one-element [Records]. *)
Definition envelope (arn : option string) (r : dynamodbstreams.Record_) : result DynamoDBEvent :=
  match NewRecord r with
  | Panic p => Panic p
  | Ok nr =>
    let nr := {| AwsRegion := AwsRegion nr;
                 Dynamodb := Dynamodb nr;
                 EventID := EventID nr;
                 EventName := EventName nr;
                 EventSource := EventSource nr;
                 EventVersion := EventVersion nr;
                 EventSourceArn := arn;
                 UserIdentity := UserIdentity nr |} in
    Ok {| Records := Some [nr] |}
  end.

(** [exec.Command(a.command, a.args...)] for one record, with the indented
    JSON of its envelope as standard input. *)
Definition sink_cmd (a : App) (arn : option string) (r : dynamodbstreams.Record_) : result Cmd :=
  match envelope arn r with
  | Panic p => Panic p
  | Ok records =>
    let rj := marshal_DynamoDBEvent records in
    Ok {| Path := command a; Args := args a; Stdin := rj |}
  end.

(** The body of [for _, r := range gro.Records] in [Run]. *)
Definition Run_record (w : World) (a : App) (arn : option string)
    (r : dynamodbstreams.Record_) : prog unit :=
  cmd ← lift (sink_cmd a arn r);
  '(out, err) ← call_CombinedOutput w cmd;
  match err with
  | Some err => return_ (Some (errors.Wrap err "failed cmd"))
  | None => sleep 5
  end.

(** The [for] loop of [Run], entered with iterator [itr]; [script] is
    what is left of the answers of [GetRecords].  Each iteration first
    prints [*itr], then polls, takes over the next iterator, goes through
    the records, and tests [*itr == ""]; the loop is left by [break] only
    to reach [return nil]. *)
Fixpoint Run_loop (w : World) (a : App) (arn : option string)
    (script : list (reply dynamodbstreams.GetRecordsOutput))
    (itr : option string) : prog unit :=
  _ ← lift (deref itr);
  match script with
  | [] => blocked
  | answer :: script =>
    emit (CallGetRecords {| dynamodbstreams.GetRecords_ShardIterator := itr |});;
    gro ← check answer "failed get records";
    let itr := dynamodbstreams.NextShardIterator gro in
    for_range (dynamodbstreams.Records gro) (Run_record w a arn);;
    s ← lift (deref itr);
    if decide (s = "") then return_ None else
    sleep 5;;
    Run_loop w a arn script itr
  end.

(** [Run] up to the loop: the stream of the table, its shards, and the
    iterator of the shard it selects.  It yields [dto.Table.LatestStreamArn]
    and [gsio.ShardIterator], the two values the loop uses. *)
Definition Run_acquire (w : World) (a : App) : prog (option string * option string) :=
  let dti := {| dynamodb.TableName := Some (table a) |} in
  emit (CallDescribeTable dti);;
  dto ← check (DescribeTable w dti) "failed describe table";
  tbl ← lift (deref (dynamodb.Table dto));
  arn ← lift (deref (dynamodb.LatestStreamArn tbl));
  if decide (arn = "") then return_ (Some (errors.New "disable dynamodb streams")) else
  let dsi := {| dynamodbstreams.DescribeStream_StreamArn := dynamodb.LatestStreamArn tbl |} in
  emit (CallDescribeStream dsi);;
  dso ← check (DescribeStream w dsi) "failed describe stream";
  sd ← lift (deref (dynamodbstreams.StreamDescription_ dso));
  let shards := dynamodbstreams.Shards sd in
  shard ← lift (index shards (Z.of_nat (length shards) - 1));
  let gsii := {| dynamodbstreams.GetShardIterator_ShardId := dynamodbstreams.ShardId shard;
                 dynamodbstreams.GetShardIterator_StreamArn := dynamodb.LatestStreamArn tbl;
                 dynamodbstreams.ShardIteratorType :=
                   Some dynamodbstreams.ShardIteratorTypeTrimHorizon |} in
  emit (CallGetShardIterator gsii);;
  gsio ← check (GetShardIterator w gsii) "failed get shard iterator";
  mret (dynamodb.LatestStreamArn tbl, dynamodbstreams.ShardIterator gsio).

(** [func (a *App) Run() error] *)
Definition Run (w : World) (a : App) : prog unit :=
  '(arn, itr) ← Run_acquire w a;
  Run_loop w a arn (GetRecords w) itr.

(** A whole run, from an empty history: how it ends and what it asked of
    the environment.  Falling off the end of [Run] cannot happen (the loop
    is left only by [return]); it would be a nil return. *)
Definition run (w : World) (a : App) : outcome * list event :=
  match Run w a [] with
  | (Stop o, h) => (o, h)
  | (Next _, h) => (Returned None, h)
  end.

(** ** The vocabulary of the specification *)

(** The ten variants of an attribute value. *)
Inductive variant := vB | vBOOL | vBS | vN | vNS | vNULL | vS | vSS | vL | vM.

(** The order in which [NewAttributeValue] checks them. *)
Definition check_order : list variant := [vB; vBOOL; vBS; vN; vNS; vNULL; vS; vSS; vL; vM].

(** The tag a variant has in the serialized form. *)
Definition tag (v : variant) : string :=
  match v with
  | vB => "B" | vBOOL => "BOOL" | vBS => "BS" | vN => "N" | vNS => "NS"
  | vNULL => "NULL" | vS => "S" | vSS => "SS" | vL => "L" | vM => "M"
  end.

Definition present {A} (o : option A) : bool := if o is Some _ then true else false.

(** A variant is populated when its field is not nil. *)
Definition is_populated (a : dynamodb.AttributeValue) (v : variant) : bool :=
  match v with
  | vB => present (dynamodb.B a)
  | vBOOL => present (dynamodb.BOOL a)
  | vBS => present (dynamodb.BS a)
  | vN => present (dynamodb.N a)
  | vNS => present (dynamodb.NS a)
  | vNULL => present (dynamodb.NULL a)
  | vS => present (dynamodb.S a)
  | vSS => present (dynamodb.SS a)
  | vL => present (dynamodb.L a)
  | vM => present (dynamodb.M a)
  end.

(** The populated variants of an attribute value, in check order. *)
Definition populated (a : dynamodb.AttributeValue) : list variant :=
  List.filter (is_populated a) check_order.

(** The specification's encoding of one variant: the single-field
    structure for that variant, holding the value of that field, with the
    members of a list or of a map encoded in turn. *)
Definition single_variant (v : variant) (a : dynamodb.AttributeValue) : iface :=
  match v with
  | vB => AttributeValueB (dynamodb.B a)
  | vBOOL => AttributeValueBOOL (dynamodb.BOOL a)
  | vBS => AttributeValueBS (dynamodb.BS a)
  | vN => AttributeValueN (dynamodb.N a)
  | vNS => AttributeValueNS (dynamodb.NS a)
  | vNULL => AttributeValueNULL (dynamodb.NULL a)
  | vS => AttributeValueS (dynamodb.S a)
  | vSS => AttributeValueSS (dynamodb.SS a)
  | vL => AttributeValueL (NewAttributeValueList (dynamodb.L a))
  | vM => AttributeValueM (NewAttributeValueMap (dynamodb.M a))
  end.

(** An attribute value with no field populated. *)
Definition unpopulated : dynamodb.AttributeValue :=
  dynamodb.Build_AttributeValue None None None None None None None None None None.

#[local] Instance variant_eq_dec : EqDecision variant.
Proof. solve_decision. Defined.

(** The field of variant [u], kept when [u] is the variant [v] and nil
    otherwise. *)
Definition keep {A} (v u : variant) (field : option A) : option A :=
  if decide (u = v) then field else None.

(** The attribute value that keeps one field of [a] and has every other
    field nil. *)
Definition only (v : variant) (a : dynamodb.AttributeValue) : dynamodb.AttributeValue :=
  dynamodb.Build_AttributeValue
    (keep v vB (dynamodb.B a)) (keep v vBOOL (dynamodb.BOOL a)) (keep v vBS (dynamodb.BS a))
    (keep v vL (dynamodb.L a)) (keep v vM (dynamodb.M a)) (keep v vN (dynamodb.N a))
    (keep v vNS (dynamodb.NS a)) (keep v vNULL (dynamodb.NULL a)) (keep v vS (dynamodb.S a))
    (keep v vSS (dynamodb.SS a)).

(** One level of nesting: as the only member of a list, or as the only
    entry of a map under a key. *)
Inductive layer := in_list | in_map (k : string).

Definition list_of (l : list dynamodb.AttributeValue) : dynamodb.AttributeValue :=
  dynamodb.Build_AttributeValue None None None (Some l) None None None None None None.

Definition map_of (m : gmap string dynamodb.AttributeValue) : dynamodb.AttributeValue :=
  dynamodb.Build_AttributeValue None None None None (Some m) None None None None None.

(** [a] wrapped in the given layers, outermost first. *)
Fixpoint wrap (path : list layer) (a : dynamodb.AttributeValue) : dynamodb.AttributeValue :=
  match path with
  | [] => a
  | in_list :: path => list_of [wrap path a]
  | in_map k :: path => map_of {[ k := wrap path a ]}
  end.

(** An encoded value wrapped in the same layers. *)
Fixpoint wrap_encoded (path : list layer) (v : iface) : iface :=
  match path with
  | [] => v
  | in_list :: path => AttributeValueL (Some [wrap_encoded path v])
  | in_map k :: path => AttributeValueM (Some {[ k := wrap_encoded path v ]})
  end.

(** The history restricted to one kind of request. *)
Definition get_records_calls (h : list event) : list dynamodbstreams.GetRecordsInput :=
  omap (λ e, if e is CallGetRecords i then Some i else None) h.

Definition get_shard_iterator_calls (h : list event)
  : list dynamodbstreams.GetShardIteratorInput :=
  omap (λ e, if e is CallGetShardIterator i then Some i else None) h.

Definition sink_calls (h : list event) : list Cmd :=
  omap (λ e, if e is CallCombinedOutput c then Some c else None) h.

(** A kind of request that neither a run of the sink nor a pause belongs
    to. *)
Definition quiet {B} (sel : event → option B) : Prop :=
  (∀ c, sel (CallCombinedOutput c) = None) ∧ (∀ n, sel (Sleep n) = None).

(** ** pipe.go and main.go: the application and its exit status *)

(** [strings.Split(s, sep)] for a separator of one byte, as [NewApp]
    calls it: the pieces of [s] between the occurrences of [sep], in
    order; a string without [sep], the empty one included, is one piece. *)
Fixpoint Split (s : string) (sep : ascii) : list string :=
  match s with
  | EmptyString => [EmptyString]
  | String c s' =>
    if decide (c = sep) then EmptyString :: Split s' sep
    else match Split s' sep with
         | piece :: pieces => String c piece :: pieces
         | [] => [String c EmptyString]
         end
  end.

(** The number of occurrences of a byte in a string. *)
Fixpoint occurrences (sep : ascii) (s : string) : nat :=
  match s with
  | EmptyString => 0%nat
  | String c s' => ((if decide (c = sep) then 1 else 0) + occurrences sep s')%nat
  end.

(** [NewApp]: the endpoint goes into the session the two clients are made
    from, which is the environment here; the error is always nil. *)
Definition NewApp (endpoint table command args : string) : App * option error :=
  ({| table := table; command := command; args := Split args ","%char |}, None).

(** How the process ends: [os.Exit] with a status, a panic, or never. *)
Inductive exit :=
| Exit (code : Z)
| Crash (p : panic)
| Hang.

(** [_main], after the flags are parsed into four strings. *)
Definition _main (w : World) (endpoint table command args : string) : exit * list event :=
  let '(app, err) := NewApp endpoint table command args in
  match err with
  | Some _ => (Exit 1, [])
  | None =>
    match run w app with
    | (Returned (Some _), h) => (Exit 1, h)
    | (Returned None, h) => (Exit 0, h)
    | (Panicked p, h) => (Crash p, h)
    | (Blocked, h) => (Hang, h)
    end
  end.

(** ** Reading an encoded attribute value back *)

(** The attribute value that has the one field of an encoded value
    populated, with the members of a list and of a map read back in turn. *)
Fixpoint decode (v : iface) : dynamodb.AttributeValue :=
  match v with
  | nil_iface => unpopulated
  | AttributeValueB b =>
    dynamodb.Build_AttributeValue b None None None None None None None None None
  | AttributeValueBOOL b =>
    dynamodb.Build_AttributeValue None b None None None None None None None None
  | AttributeValueBS bs =>
    dynamodb.Build_AttributeValue None None bs None None None None None None None
  | AttributeValueL l =>
    dynamodb.Build_AttributeValue None None None
      (match l with Some l => Some (decode <$> l) | None => None end)
      None None None None None None
  | AttributeValueM m =>
    dynamodb.Build_AttributeValue None None None None
      (match m with Some m => Some (decode <$> m) | None => None end)
      None None None None None
  | AttributeValueN n =>
    dynamodb.Build_AttributeValue None None None None None n None None None None
  | AttributeValueNS ns =>
    dynamodb.Build_AttributeValue None None None None None None ns None None None
  | AttributeValueNULL b =>
    dynamodb.Build_AttributeValue None None None None None None None b None None
  | AttributeValueS s =>
    dynamodb.Build_AttributeValue None None None None None None None None s None
  | AttributeValueSS ss =>
    dynamodb.Build_AttributeValue None None None None None None None None None ss
  end.

(** An attribute value as the service sends it: at most one variant
    populated, in the value itself and in every member below it. *)
Inductive canonical : dynamodb.AttributeValue → Prop :=
| canonical_node a :
    (length (populated a) ≤ 1)%nat →
    (∀ l, dynamodb.L a = Some l → Forall canonical l) →
    (∀ m, dynamodb.M a = Some m → map_Forall (λ _, canonical) m) →
    canonical a.

(** The number of attribute values in an attribute value. *)
Fixpoint weight (a : dynamodb.AttributeValue) : nat :=
  S (match dynamodb.L a with
     | Some l => foldr (λ x n, (weight x + n)%nat) 0%nat l
     | None => 0%nat
     end
     + match dynamodb.M a with
       | Some m => map_fold (λ _ x n, (weight x + n)%nat) 0%nat m
       | None => 0%nat
       end).

(** ** The history of a run that drains its shard *)

(** The command of a record that can be transformed. *)
Definition the_cmd (a : App) (arn : option string) (r : dynamodbstreams.Record_) : option Cmd :=
  match sink_cmd a arn r with
  | Ok cmd => Some cmd
  | Panic _ => None
  end.

(** One iteration: the poll, then for each record its invocation and the
    pause after it. *)
Definition batch_events (a : App) (arn : option string) (itr : option string)
    (gro : dynamodbstreams.GetRecordsOutput) : list event :=
  CallGetRecords {| dynamodbstreams.GetRecords_ShardIterator := itr |} ::
  flat_map (λ cmd, [CallCombinedOutput cmd; Sleep 5])
    (omap (the_cmd a arn) (dynamodbstreams.Records gro)).

(** The iterations over the given batches, with a pause between two
    iterations, each polling with the iterator the batch before it gave. *)
Fixpoint drained_events (a : App) (arn : option string) (itr : option string)
    (batches : list dynamodbstreams.GetRecordsOutput)
    (final : dynamodbstreams.GetRecordsOutput) : list event :=
  match batches with
  | [] => batch_events a arn itr final
  | gro :: batches =>
    (batch_events a arn itr gro ++ Sleep 5 ::
     drained_events a arn (dynamodbstreams.NextShardIterator gro) batches final)%list
  end.

(** The pauses of a history. *)
Definition sleeps (h : list event) : list Z :=
  omap (λ e, if e is Sleep n then Some n else None) h.

(** A stretch of the program that only adds events of one kind to the
    history, however it ends. *)
Definition adds {A} (Q : event → Prop) (m : prog A) : Prop :=
  ∀ h s h', m h = (s, h') → ∃ ext, h' = (h ++ ext)%list ∧ Forall Q ext.

(** What [Run] may ask of its environment for an application: the table
    it is configured with, the stream, a shard iterator at the trim
    horizon, records, the configured command with the configured
    arguments and the envelope of one record as input, and pauses of five
    seconds. *)
Definition Run_event (a : App) (e : event) : Prop :=
  match e with
  | CallDescribeTable i => i = {| dynamodb.TableName := Some (table a) |}
  | CallDescribeStream _ => True
  | CallGetShardIterator i =>
    dynamodbstreams.ShardIteratorType i = Some "TRIM_HORIZON"
  | CallGetRecords _ => True
  | CallCombinedOutput cmd =>
    Path cmd = command a ∧ Args cmd = args a
    ∧ ∃ ev nr, Stdin cmd = marshal_DynamoDBEvent ev ∧ Records ev = Some [nr]
  | Sleep n => n = 5
  end.

(** The messages under which [Run] wraps the errors it returns. *)
Definition stage_messages : list string :=
  [ "failed describe table"; "failed describe stream"; "failed get shard iterator";
    "failed get records"; "failed cmd" ].

(** How a run may end, given the answers to its polls: with nil only
    when some answer carried the empty string as next iterator; with the
    error of a table without stream or with an error wrapped under the
    message of its stage; in a panic; or waiting. *)
Definition Run_outcome (script : list (reply dynamodbstreams.GetRecordsOutput))
    (o : outcome) : Prop :=
  match o with
  | Returned None =>
    ∃ gro, Reply gro ∈ script ∧ dynamodbstreams.NextShardIterator gro = Some ""
  | Returned (Some err) =>
    err = errors.New "disable dynamodb streams"
    ∨ ∃ cause msg, err = errors.Wrap cause msg ∧ msg ∈ stage_messages
  | Panicked _ => True
  | Blocked => True
  end.

(** ** Sample data *)

Module sample.

Definition string_of (s : string) : dynamodb.AttributeValue :=
  dynamodb.Build_AttributeValue None None None None None None None None (Some s) None.

(** A string three levels deep: in a list, in a map, in a list. *)
Definition nested : dynamodb.AttributeValue :=
  list_of [map_of {[ "tags" := list_of [string_of "x"] ]}].

(** N, S and L populated at once. *)
Definition mixed : dynamodb.AttributeValue :=
  dynamodb.Build_AttributeValue None None None (Some [string_of "x"]) None
    (Some "42") None None (Some "forty-two") None.

Definition instant : Time := {| wall_sec := 1234567890; wall_nsec := 500 |}.

(** A record body with keys only. *)
Definition keys_only : dynamodbstreams.StreamRecord :=
  {| dynamodbstreams.ApproximateCreationDateTime := Some instant;
     dynamodbstreams.Keys := Some {[ "id" := string_of "k1" ]};
     dynamodbstreams.NewImage := None;
     dynamodbstreams.OldImage := None;
     dynamodbstreams.SequenceNumber := Some "111";
     dynamodbstreams.SizeBytes := Some 26;
     dynamodbstreams.StreamViewType := Some "KEYS_ONLY" |}.

(** The same with a key mapping that has no entry. *)
Definition keys_only_no_key : dynamodbstreams.StreamRecord :=
  {| dynamodbstreams.ApproximateCreationDateTime := Some instant;
     dynamodbstreams.Keys := Some ∅;
     dynamodbstreams.NewImage := None;
     dynamodbstreams.OldImage := None;
     dynamodbstreams.SequenceNumber := Some "111";
     dynamodbstreams.SizeBytes := Some 26;
     dynamodbstreams.StreamViewType := Some "KEYS_ONLY" |}.

(** A record body with a malformed attribute value among its keys. *)
Definition malformed_key : dynamodbstreams.StreamRecord :=
  {| dynamodbstreams.ApproximateCreationDateTime := Some instant;
     dynamodbstreams.Keys := Some {[ "id" := unpopulated ]};
     dynamodbstreams.NewImage := None;
     dynamodbstreams.OldImage := None;
     dynamodbstreams.SequenceNumber := Some "112";
     dynamodbstreams.SizeBytes := Some 26;
     dynamodbstreams.StreamViewType := Some "KEYS_ONLY" |}.

(** A record body without its creation timestamp. *)
Definition no_timestamp : dynamodbstreams.StreamRecord :=
  {| dynamodbstreams.ApproximateCreationDateTime := None;
     dynamodbstreams.Keys := Some {[ "id" := string_of "k2" ]};
     dynamodbstreams.NewImage := None;
     dynamodbstreams.OldImage := None;
     dynamodbstreams.SequenceNumber := Some "113";
     dynamodbstreams.SizeBytes := Some 26;
     dynamodbstreams.StreamViewType := Some "KEYS_ONLY" |}.

Definition record_of (id : string) (body : dynamodbstreams.StreamRecord)
  : dynamodbstreams.Record_ :=
  {| dynamodbstreams.AwsRegion := Some "us-east-1";
     dynamodbstreams.Dynamodb := Some body;
     dynamodbstreams.EventID := Some id;
     dynamodbstreams.EventName := Some "INSERT";
     dynamodbstreams.EventSource := Some "aws:dynamodb";
     dynamodbstreams.EventVersion := Some "1.1";
     dynamodbstreams.UserIdentity := None |}.

Definition app : App := {| table := "orders"; command := "wc"; args := ["-l"] |}.

Definition stream_arn : string := "arn:aws:dynamodb:stream/orders".

Definition batch (next : option string) (rs : list dynamodbstreams.Record_)
  : reply dynamodbstreams.GetRecordsOutput :=
  Reply {| dynamodbstreams.NextShardIterator := next; dynamodbstreams.Records := rs |}.

(** A table with a stream of the given shards, the given answers to
    [GetRecords], and a sink that behaves as given. *)
Definition world (shards : list dynamodbstreams.Shard)
    (polls : list (reply dynamodbstreams.GetRecordsOutput))
    (sink : list event → Cmd → process) : World :=
  {| DescribeTable := λ _,
       Reply {| dynamodb.Table := Some {| dynamodb.LatestStreamArn := Some stream_arn |} |};
     DescribeStream := λ _,
       Reply {| dynamodbstreams.StreamDescription_ :=
                  Some {| dynamodbstreams.Shards := shards |} |};
     GetShardIterator := λ _, Reply {| dynamodbstreams.ShardIterator := Some "it0" |};
     GetRecords := polls;
     sink := sink |}.

Definition two_shards : list dynamodbstreams.Shard :=
  [ {| dynamodbstreams.ShardId := Some "shard-0" |};
    {| dynamodbstreams.ShardId := Some "shard-1" |} ].

(** A sink that exits with status 0 and prints nothing. *)
Definition sink_ok : list event → Cmd → process :=
  λ _ _, Exited 0 [].

(** A sink that exits with status 1 from its second invocation on. *)
Definition sink_fails_second : list event → Cmd → process :=
  λ h _, if decide (length (sink_calls h) = 0%nat) then Exited 0 []
         else Exited 1 [].

(** One batch of three records, the last of them malformed, and a sink
    that fails on the second. *)
Definition world_sink_fails : World :=
  world two_shards
    [ batch (Some "it1")
        [ record_of "e1" keys_only; record_of "e2" keys_only;
          record_of "e3" no_timestamp ] ]
    sink_fails_second.

(** Two polls; the second answers without a next iterator, as the
    service does once a shard is closed. *)
Definition world_closed_shard : World :=
  world two_shards
    [ batch (Some "it1") [record_of "e1" keys_only];
      batch None [record_of "e2" keys_only] ]
    sink_ok.

(** Two polls; the second answers with an empty next iterator. *)
Definition world_empty_token : World :=
  world two_shards
    [ batch (Some "it1") [record_of "e1" keys_only];
      batch (Some "") [record_of "e2" keys_only] ]
    sink_ok.

(** A stream that lists no shard. *)
Definition world_no_shard : World :=
  world [] [ batch (Some "") [] ] sink_ok.

(** A first batch whose only record lacks its creation timestamp. *)
Definition world_no_timestamp : World :=
  world two_shards [ batch (Some "") [record_of "e9" no_timestamp] ] sink_ok.

(** A record body with both images. *)
Definition both_images : dynamodbstreams.StreamRecord :=
  {| dynamodbstreams.ApproximateCreationDateTime := Some instant;
     dynamodbstreams.Keys := Some {[ "id" := string_of "k1" ]};
     dynamodbstreams.NewImage := Some {[ "id" := string_of "k1"; "v" := string_of "new" ]};
     dynamodbstreams.OldImage := Some {[ "id" := string_of "k1"; "v" := string_of "old" ]};
     dynamodbstreams.SequenceNumber := Some "114";
     dynamodbstreams.SizeBytes := Some 52;
     dynamodbstreams.StreamViewType := Some "NEW_AND_OLD_IMAGES" |}.

(** A world whose acquisition calls answer as given. *)
Definition world_acquiring
    (table : reply dynamodb.DescribeTableOutput)
    (stream : reply dynamodbstreams.DescribeStreamOutput)
    (iterator : reply dynamodbstreams.GetShardIteratorOutput)
    (polls : list (reply dynamodbstreams.GetRecordsOutput)) : World :=
  {| DescribeTable := λ _, table;
     DescribeStream := λ _, stream;
     GetShardIterator := λ _, iterator;
     GetRecords := polls;
     sink := sink_ok |}.

Definition table_with (arn : option string) : reply dynamodb.DescribeTableOutput :=
  Reply {| dynamodb.Table := Some {| dynamodb.LatestStreamArn := arn |} |}.

Definition stream_with (shards : list dynamodbstreams.Shard)
  : reply dynamodbstreams.DescribeStreamOutput :=
  Reply {| dynamodbstreams.StreamDescription_ :=
             Some {| dynamodbstreams.Shards := shards |} |}.

Definition iterator_with (itr : option string)
  : reply dynamodbstreams.GetShardIteratorOutput :=
  Reply {| dynamodbstreams.ShardIterator := itr |}.

Definition world_table_missing : World :=
  world_acquiring (Fail (errors.External "ResourceNotFoundException"))
    (stream_with []) (iterator_with None) [].

Definition world_stream_disabled : World :=
  world_acquiring (table_with (Some "")) (stream_with []) (iterator_with None) [].

Definition world_stream_never_enabled : World :=
  world_acquiring (table_with None) (stream_with []) (iterator_with None) [].

Definition world_stream_failing : World :=
  world_acquiring (table_with (Some stream_arn))
    (Fail (errors.External "InternalServerError")) (iterator_with None) [].

Definition world_iterator_failing : World :=
  world_acquiring (table_with (Some stream_arn)) (stream_with two_shards)
    (Fail (errors.External "TrimmedDataAccessException")) [].

Definition world_iterator_nil : World :=
  world_acquiring (table_with (Some stream_arn)) (stream_with two_shards)
    (iterator_with None) [batch (Some "") []].

(** A poll that fails after one good batch. *)
Definition world_poll_fails : World :=
  world two_shards
    [ batch (Some "it1") [record_of "e1" keys_only];
      Fail (errors.External "ExpiredIteratorException") ]
    sink_ok.

End sample.

(** ** Facts about the serialized form *)

Section json_facts.

Lemma assoc_None k ms : assoc k ms = None ↔ k ∉ ms.*1.
Proof.
  induction ms as [|[k' v'] ms IH]; cbn.
  - split; [intros _; apply not_elem_of_nil | done].
  - case_decide as Hk; rewrite not_elem_of_cons; cbn.
    + split; [done | intros [Hne _]; by destruct Hne].
    + rewrite IH. split; [|by intros [_ ?]].
      intros Hnot. split; [|done]. intros ->. by apply Hk.
Qed.

Lemma assoc_NoDup k v ms : NoDup ms.*1 → (k, v) ∈ ms → assoc k ms = Some v.
Proof.
  induction ms as [|[k' v'] ms IH]; cbn.
  - intros _ H. by apply elem_of_nil in H.
  - rewrite NoDup_cons. intros [Hk' Hnd] [[= -> ->] | Hin]%elem_of_cons.
    + by rewrite decide_True.
    + rewrite decide_False; [auto|].
      intros ->. apply Hk'. apply list_elem_of_fmap. by exists (k, v).
Qed.

(** Sorting the entries of a map by key loses none and adds none. *)
Lemma assoc_map_to_list k (m : gmap string json) :
  assoc k (sort_keys (map_to_list m)) = m !! k.
Proof.
  assert (sort_keys (map_to_list m) ≡ₚ map_to_list m) as Hp
    by apply merge_sort_Permutation.
  destruct (m !! k) as [v|] eqn:Hm.
  - apply assoc_NoDup.
    + rewrite Hp. apply NoDup_fst_map_to_list.
    + rewrite Hp. by apply elem_of_map_to_list.
  - apply assoc_None. rewrite Hp. intros [[k' v] [-> Hin]]%list_elem_of_fmap.
    apply elem_of_map_to_list in Hin. cbn in Hm. congruence.
Qed.

(** The object written for a map has a member for each entry of the map
    and no other. *)
Lemma member_marshal_map {A} (f : A → json) (m : gmap string A) k :
  member k (marshal_map f (Some m)) = f <$> m !! k.
Proof. unfold member. cbn. by rewrite assoc_map_to_list, lookup_fmap. Qed.

Lemma keys_of_single_variant v a :
  keys_of (marshal_iface (single_variant v a)) = [tag v].
Proof. by destruct v. Qed.

End json_facts.

(** ** The encoder *)

(** One presence check: if the field is populated, the list of populated
    variants starts with its variant, which settles the goal; otherwise
    the next check is left. *)
Ltac decided_by field := destruct field; [by intros [= <- _]|].

(** The checks in the order of the code. *)
Ltac check_in_order b bo bs l m n ns nu s ss :=
  unfold populated; cbn;
  decided_by b; decided_by bo; decided_by bs; decided_by n; decided_by ns;
  decided_by nu; decided_by s; decided_by ss; decided_by l; decided_by m.

Section encoder.

Implicit Types (a : dynamodb.AttributeValue) (v : variant).

(** The first populated variant, in check order, decides the result. *)
Lemma NewAttributeValue_first a v rest :
  populated a = v :: rest → NewAttributeValue a = single_variant v a.
Proof.
  destruct a as [b bo bs l m n ns nu s ss].
  check_in_order b bo bs l m n ns nu s ss. done.
Qed.

(** The two recursive branches, through the named functions. *)
Lemma NewAttributeValue_L a rest :
  populated a = vL :: rest →
  NewAttributeValue a = AttributeValueL (NewAttributeValueList (dynamodb.L a)).
Proof. apply NewAttributeValue_first. Qed.

Lemma NewAttributeValue_M a rest :
  populated a = vM :: rest →
  NewAttributeValue a = AttributeValueM (NewAttributeValueMap (dynamodb.M a)).
Proof. apply NewAttributeValue_first. Qed.

Lemma NewAttributeValue_none a :
  populated a = [] → NewAttributeValue a = nil_iface.
Proof.
  destruct a as [b bo bs l m n ns nu s ss]. unfold populated. cbn.
  destruct b; [done|]. destruct bo; [done|]. destruct bs; [done|].
  destruct n; [done|]. destruct ns; [done|]. destruct nu; [done|].
  destruct s; [done|]. destruct ss; [done|]. destruct l; [done|].
  by destruct m.
Qed.

(** The two recursive variants are checked last. *)
Lemma recursive_last a v u rest :
  populated a = v :: u :: rest → v ≠ vM ∧ (v = vL → u = vM ∧ rest = []).
Proof.
  destruct a as [b bo bs l m n ns nu s ss]. unfold populated. cbn.
  decided_by b. decided_by bo. decided_by bs. decided_by n. decided_by ns.
  decided_by nu. decided_by s. decided_by ss.
  destruct l; [|by destruct m].
  destruct m; [|done]. by intros [= <- <- <-].
Qed.

Lemma populated_elem a v : is_populated a v = true → v ∈ populated a.
Proof.
  intros Hv. apply list_elem_of_In, filter_In. split; [|done].
  destruct v; cbn; tauto.
Qed.

(** The head of a filtered list is the first member that passes. *)
Lemma filter_head {A} (p : A → bool) (l : list A) x rest :
  List.filter p l = x :: rest →
  ∃ before after, l = (before ++ x :: after)%list
    ∧ Forall (λ y, p y = false) before ∧ p x = true.
Proof.
  induction l as [|y l IH]; cbn; [done|].
  destruct (p y) eqn:Hy.
  - intros [= -> <-]. by exists [], l.
  - intros (before & after & -> & Hb & Hx)%IH.
    exists (y :: before), after. split_and!; [done | by constructor | done].
Qed.

(** Encoding commutes with nesting, whatever the depth. *)
Lemma NewAttributeValue_wrap path a :
  NewAttributeValue (wrap path a) = wrap_encoded path (NewAttributeValue a).
Proof.
  induction path as [|[|k] path IH]; [done| |].
  - cbn. by rewrite IH.
  - cbn. by rewrite map_fmap_singleton, IH.
Qed.

Lemma populated_only a v rest :
  populated a = v :: rest → populated (only v a) = [v].
Proof.
  destruct a as [b bo bs l m n ns nu s ss].
  check_in_order b bo bs l m n ns nu s ss. done.
Qed.

Lemma single_variant_only a v :
  single_variant v (only v a) = single_variant v a.
Proof. by destruct v. Qed.

End encoder.

(** ** The properties of the encoder *)

(** C1. An attribute value with exactly one populated variant is encoded
    as the single-field structure of that variant, holding that field's
    value: its serialized form is an object with that one tag and no other
    member.  For a list and for a map the members are encoded by the same
    function, and this goes on at any depth: encoding commutes with
    wrapping the value in any number of list and map layers. *)
Theorem NewAttributeValue_one_variant (a : dynamodb.AttributeValue) (v : variant) :
  populated a = [v] →
  NewAttributeValue a = single_variant v a
  ∧ keys_of (marshal_iface (NewAttributeValue a)) = [tag v]
  ∧ (∀ l, dynamodb.L a = Some l →
       NewAttributeValue a = AttributeValueL (Some (NewAttributeValue <$> l)))
  ∧ (∀ m, dynamodb.M a = Some m →
       NewAttributeValue a = AttributeValueM (Some (NewAttributeValue <$> m)))
  ∧ (∀ path, NewAttributeValue (wrap path a) = wrap_encoded path (single_variant v a)).
Proof.
  intros Hone. pose proof (NewAttributeValue_first _ _ _ Hone) as Henc.
  split_and!.
  - done.
  - rewrite Henc. apply keys_of_single_variant.
  - intros l Hl. assert (v = vL) as ->.
    { assert (vL ∈ populated a) as Hin
        by (apply populated_elem; cbn; by rewrite Hl).
      rewrite Hone in Hin. by apply list_elem_of_singleton in Hin. }
    rewrite Henc. cbn. by rewrite Hl.
  - intros m Hm. assert (v = vM) as ->.
    { assert (vM ∈ populated a) as Hin
        by (apply populated_elem; cbn; by rewrite Hm).
      rewrite Hone in Hin. by apply list_elem_of_singleton in Hin. }
    rewrite Henc. cbn. by rewrite Hm.
  - intros path. by rewrite NewAttributeValue_wrap, Henc.
Qed.

Lemma NewAttributeValue_one_variant_witness :
  populated sample.nested = [vL]
  ∧ NewAttributeValue sample.nested =
      AttributeValueL (Some [
        AttributeValueM (Some {[ "tags" :=
          AttributeValueL (Some [AttributeValueS (Some "x")]) ]}) ]).
Proof.
  split; [reflexivity|].
  rewrite (proj1 (NewAttributeValue_one_variant sample.nested vL eq_refl)).
  reflexivity.
Defined.

(** C10. When more than one variant is populated, the result is the
    single-field structure of the first populated variant in the check
    order B, BOOL, BS, N, NS, NULL, S, SS, L, M: every variant before it
    in that order is unpopulated.  The other populated fields leave no
    trace: the result is the one obtained from the value that keeps only
    that field, and its serialized form has that one tag.  The two
    recursive variants come last, so a list is chosen only over a map and
    a map never over anything. *)
Theorem NewAttributeValue_first_populated
    (a : dynamodb.AttributeValue) (v u : variant) (rest : list variant) :
  populated a = v :: u :: rest →
  NewAttributeValue a = single_variant v a
  ∧ (∃ before after, check_order = (before ++ v :: after)%list
       ∧ Forall (λ x, is_populated a x = false) before
       ∧ is_populated a v = true)
  ∧ keys_of (marshal_iface (NewAttributeValue a)) = [tag v]
  ∧ populated (only v a) = [v]
  ∧ NewAttributeValue a = NewAttributeValue (only v a)
  ∧ v ≠ vM
  ∧ (v = vL → u = vM ∧ rest = []).
Proof.
  intros Hmany. pose proof (NewAttributeValue_first _ _ _ Hmany) as Henc.
  pose proof (populated_only _ _ _ Hmany) as Honly.
  split_and!.
  - done.
  - by apply filter_head in Hmany.
  - rewrite Henc. apply keys_of_single_variant.
  - done.
  - by rewrite Henc, (NewAttributeValue_first _ _ _ Honly), single_variant_only.
  - by apply recursive_last in Hmany as [? _].
  - by apply recursive_last in Hmany as [_ ?].
Qed.

Lemma NewAttributeValue_first_populated_witness :
  populated sample.mixed = [vN; vS; vL]
  ∧ NewAttributeValue sample.mixed = AttributeValueN (Some "42").
Proof.
  split; [reflexivity|].
  rewrite (proj1 (NewAttributeValue_first_populated sample.mixed vN vS [vL] eq_refl)).
  reflexivity.
Defined.

(** ** The properties of the record transformation *)

Section records.

Implicit Types (sr : dynamodbstreams.StreamRecord) (r : dynamodbstreams.Record_).

(** With its timestamp present, a record body is transformed field by
    field; the view type is the one field that is not carried over. *)
Lemma NewStreamRecord_present sr t :
  dynamodbstreams.ApproximateCreationDateTime sr = Some t →
  NewStreamRecord (Some sr) =
    Ok {| ApproximateCreationDateTime := Some (Unix t);
          Keys := NewAttributeValueMap (dynamodbstreams.Keys sr);
          NewImage := NewAttributeValueMap (dynamodbstreams.NewImage sr);
          OldImage := NewAttributeValueMap (dynamodbstreams.OldImage sr);
          SequenceNumber := dynamodbstreams.SequenceNumber sr;
          SizeBytes := dynamodbstreams.SizeBytes sr;
          StreamViewType := None |}.
Proof. intros Ht. unfold NewStreamRecord. cbn. by rewrite Ht. Qed.

Lemma NewStreamRecord_absent sr :
  dynamodbstreams.ApproximateCreationDateTime sr = None →
  NewStreamRecord (Some sr) = Panic NilDereference.
Proof. intros Ht. unfold NewStreamRecord. cbn. by rewrite Ht. Qed.

(** The envelope of a record whose body has its timestamp. *)
Lemma envelope_present arn r sr t :
  dynamodbstreams.Dynamodb r = Some sr →
  dynamodbstreams.ApproximateCreationDateTime sr = Some t →
  envelope arn r =
    Ok {| Records := Some [
      {| AwsRegion := dynamodbstreams.AwsRegion r;
         Dynamodb := Some
           {| ApproximateCreationDateTime := Some (Unix t);
              Keys := NewAttributeValueMap (dynamodbstreams.Keys sr);
              NewImage := NewAttributeValueMap (dynamodbstreams.NewImage sr);
              OldImage := NewAttributeValueMap (dynamodbstreams.OldImage sr);
              SequenceNumber := dynamodbstreams.SequenceNumber sr;
              SizeBytes := dynamodbstreams.SizeBytes sr;
              StreamViewType := None |};
         EventID := dynamodbstreams.EventID r;
         EventName := dynamodbstreams.EventName r;
         EventSource := dynamodbstreams.EventSource r;
         EventVersion := dynamodbstreams.EventVersion r;
         EventSourceArn := arn;
         UserIdentity := dynamodbstreams.UserIdentity r |} ] |}.
Proof.
  intros Hd Ht. unfold envelope, NewRecord.
  by rewrite Hd, (NewStreamRecord_present _ _ Ht).
Qed.

Lemma envelope_absent arn r sr :
  dynamodbstreams.Dynamodb r = Some sr →
  dynamodbstreams.ApproximateCreationDateTime sr = None →
  envelope arn r = Panic NilDereference.
Proof.
  intros Hd Ht. unfold envelope, NewRecord.
  by rewrite Hd, (NewStreamRecord_absent _ Ht).
Qed.

(** A map field tagged [omitempty] is a member exactly when the map has
    an entry. *)
Lemma field_omitempty_empty {A} name (f : A → json) (m : gomap A) :
  len_map m = 0%nat → field_omitempty name f m = [].
Proof. intros H. unfold field_omitempty. by rewrite decide_True. Qed.

Lemma field_omitempty_entry {A} name (f : A → json) (m : gomap A) :
  len_map m ≠ 0%nat → field_omitempty name f m = [(name, marshal_map f m)].
Proof. intros H. unfold field_omitempty. by rewrite decide_False. Qed.

Lemma len_NewAttributeValueMap m : len_map (NewAttributeValueMap m) = len_map m.
Proof. unfold len_map, NewAttributeValueMap. cbn. apply map_size_fmap. Qed.

End records.

(** C7. An attribute value with no populated variant raises nothing: it
    is encoded as nil, which is written as [null]; as an entry of a map
    or a member of a list it is encoded in place like any other, the
    entry being written as [null]; and the transformation of a record
    that holds it (here among its keys) succeeds, with nil at that key. *)
Theorem unpopulated_degrades (a : dynamodb.AttributeValue) :
  populated a = [] →
  NewAttributeValue a = nil_iface
  ∧ marshal_iface (NewAttributeValue a) = JNull
  ∧ (∀ (m : gmap string dynamodb.AttributeValue) k, m !! k = Some a →
       member k (marshal_map marshal_iface (NewAttributeValueMap (Some m))) = Some JNull)
  ∧ (∀ (l : list dynamodb.AttributeValue) (i : nat), l !! i = Some a →
       range (NewAttributeValueList (Some l)) !! i = Some nil_iface)
  ∧ (∀ arn r sr t (m : gmap string dynamodb.AttributeValue) k,
       dynamodbstreams.Dynamodb r = Some sr →
       dynamodbstreams.ApproximateCreationDateTime sr = Some t →
       dynamodbstreams.Keys sr = Some m →
       m !! k = Some a →
       ∃ ev nr d, envelope arn r = Ok ev
         ∧ Records ev = Some [nr]
         ∧ Dynamodb nr = Some d
         ∧ range_map (Keys d) !! k = Some nil_iface).
Proof.
  intros Hnone. pose proof (NewAttributeValue_none _ Hnone) as Hnil.
  split_and!.
  - done.
  - by rewrite Hnil.
  - intros m k Hk. unfold NewAttributeValueMap.
    change (range_map (Some m)) with m.
    rewrite member_marshal_map, lookup_fmap, Hk. cbn. by rewrite Hnil.
  - intros l i Hi. cbn. by rewrite list_lookup_fmap, Hi; cbn; rewrite Hnil.
  - intros arn r sr t m k Hd Ht Hm Hk.
    rewrite (envelope_present arn _ _ _ Hd Ht).
    eexists _, _, _. split_and!; [done..|].
    cbn. by rewrite Hm; cbn; rewrite lookup_fmap, Hk; cbn; rewrite Hnil.
Qed.

Lemma unpopulated_degrades_witness :
  populated unpopulated = []
  ∧ ∃ ev, envelope (Some sample.stream_arn)
            (sample.record_of "e7" sample.malformed_key) = Ok ev.
Proof.
  split; [reflexivity|].
  destruct (proj2 (proj2 (proj2 (proj2 (unpopulated_degrades unpopulated eq_refl))))
              (Some sample.stream_arn) (sample.record_of "e7" sample.malformed_key)
              sample.malformed_key sample.instant {[ "id" := unpopulated ]} "id"
              eq_refl eq_refl eq_refl eq_refl) as (ev & _ & _ & Hev & _).
  by exists ev.
Defined.

(** The view type of the raw record never reaches the transformed one. *)
Lemma NewStreamRecord_view_type (sr : option dynamodbstreams.StreamRecord) (d : StreamRecord) :
  NewStreamRecord sr = Ok d → StreamViewType d = None.
Proof.
  destruct sr as [sr|]; [|done]. unfold NewStreamRecord. cbn.
  destruct (dynamodbstreams.ApproximateCreationDateTime sr); [|done].
  by intros [= <-].
Qed.

(** C2. The transformation copies every field of the raw record into its
    counterpart and sets the source-stream identifier to the injected
    one ([envelope_present] above), but it leaves the view type out: for
    a raw record tagged KEYS_ONLY, the transformed record has a nil view
    type, written as [null]. *)
Theorem transform_drops_view_type :
  let r := sample.record_of "e1" sample.keys_only in
  dynamodbstreams.StreamViewType sample.keys_only = Some "KEYS_ONLY"
  ∧ ∃ ev nr d body,
      envelope (Some sample.stream_arn) r = Ok ev
      ∧ Records ev = Some [nr]
      ∧ EventSourceArn nr = Some sample.stream_arn
      ∧ Dynamodb nr = Some d
      ∧ StreamViewType d = None
      ∧ body_of (marshal_DynamoDBEvent ev) = Some body
      ∧ member "StreamViewType" body = Some JNull.
Proof.
  cbn zeta. split; [reflexivity|].
  eexists _, _, _, _. split_and!; reflexivity.
Qed.

(** C3 as stated fails on a KEYS_ONLY record body whose key mapping has no
    entry: the serialized body has no [Keys] member either. *)
Lemma keys_only_no_key_counterexample :
  let sr := sample.keys_only_no_key in
  dynamodbstreams.StreamViewType sr = Some "KEYS_ONLY"
  ∧ dynamodbstreams.NewImage sr = None
  ∧ dynamodbstreams.OldImage sr = None
  ∧ ∃ ev body,
      envelope (Some sample.stream_arn) (sample.record_of "e3" sr) = Ok ev
      ∧ body_of (marshal_DynamoDBEvent ev) = Some body
      ∧ member "Keys" body = None.
Proof.
  cbn zeta. split_and!; [reflexivity..|].
  eexists _, _. split_and!; reflexivity.
Qed.

(** C3, amended.  For a record body whose timestamp is present, with no
    before- and no after-image (nil or without entry) and with at least
    one key, the serialized body has a [Keys] member, holding the encoded
    keys, and has no [NewImage] and no [OldImage] member at all: its
    members are exactly the five listed. *)
Theorem keys_only_envelope
    (arn : option string) (r : dynamodbstreams.Record_)
    (sr : dynamodbstreams.StreamRecord) (t : Time) :
  dynamodbstreams.Dynamodb r = Some sr →
  dynamodbstreams.ApproximateCreationDateTime sr = Some t →
  len_map (dynamodbstreams.NewImage sr) = 0%nat →
  len_map (dynamodbstreams.OldImage sr) = 0%nat →
  len_map (dynamodbstreams.Keys sr) ≠ 0%nat →
  ∃ ev body,
    envelope arn r = Ok ev
    ∧ body_of (marshal_DynamoDBEvent ev) = Some body
    ∧ member "Keys" body =
        Some (marshal_map marshal_iface (NewAttributeValueMap (dynamodbstreams.Keys sr)))
    ∧ member "NewImage" body = None
    ∧ member "OldImage" body = None
    ∧ keys_of body = ["ApproximateCreationDateTime"; "Keys"; "SequenceNumber";
                      "SizeBytes"; "StreamViewType"].
Proof.
  intros Hd Ht Hnew Hold Hkeys.
  pose proof (envelope_present arn _ _ _ Hd Ht) as Hev.
  eexists _, (marshal_StreamRecord _). split; [exact Hev|]. split; [reflexivity|].
  unfold marshal_StreamRecord. cbn [Keys NewImage OldImage].
  rewrite (field_omitempty_entry "Keys"), !field_omitempty_empty
    by by rewrite len_NewAttributeValueMap.
  split_and!; reflexivity.
Qed.

Lemma keys_only_envelope_witness :
  len_map (dynamodbstreams.Keys sample.keys_only) ≠ 0%nat
  ∧ ∃ ev body,
      envelope (Some sample.stream_arn) (sample.record_of "e1" sample.keys_only) = Ok ev
      ∧ body_of (marshal_DynamoDBEvent ev) = Some body
      ∧ keys_of body = ["ApproximateCreationDateTime"; "Keys"; "SequenceNumber";
                        "SizeBytes"; "StreamViewType"].
Proof.
  assert (len_map (dynamodbstreams.Keys sample.keys_only) ≠ 0%nat) as Hkeys
    by (vm_compute; discriminate).
  split; [exact Hkeys|].
  destruct (keys_only_envelope (Some sample.stream_arn)
              (sample.record_of "e1" sample.keys_only) sample.keys_only sample.instant
              eq_refl eq_refl eq_refl eq_refl Hkeys)
    as (ev & body & Hev & Hbody & _ & _ & _ & Hmembers).
  by exists ev, body.
Defined.

(** ** The run *)

Section run_facts.

Context (w : World) (a : App) (arn : option string).

Local Abbreviation body := (Run_record w a arn).

Lemma for_range_app {A} (pre post : list A) (f : A → prog unit) h h1 :
  for_range pre f h = (Next tt, h1) →
  for_range (pre ++ post) f h = for_range post f h1.
Proof.
  revert h. induction pre as [|x pre IH]; intros h; cbn.
  - by intros [= ->].
  - unfold mbind, prog_bind. destruct (f x h) as [[[]|o] h'] eqn:Hx; [|done].
    apply IH.
Qed.

(** A record that ends the run ends the loop over the batch: what comes
    after it in the batch is not looked at. *)
Lemma for_range_stop {A} (pre post : list A) x (f : A → prog unit) h h1 h2 o :
  for_range pre f h = (Next tt, h1) →
  f x h1 = (Stop o, h2) →
  for_range (pre ++ x :: post) f h = (Stop o, h2).
Proof.
  intros Hpre Hx. rewrite (for_range_app _ _ _ _ _ Hpre). cbn.
  unfold mbind, prog_bind. by rewrite Hx.
Qed.

(** [CombinedOutput] returns an error exactly when the process did not
    run to its end and exit with status 0. *)
Lemma CombinedOutput_error p :
  exits_zero p = false → ∃ err, (CombinedOutput p).2 = Some err.
Proof.
  destruct p as [why|status out|why out]; cbn; [by eexists| |by eexists].
  destruct (decide (status = 0)) as [->|]; [done|by eexists].
Qed.

Lemma CombinedOutput_nil p :
  exits_zero p = true → (CombinedOutput p).2 = None.
Proof.
  destruct p as [why|status out|why out]; cbn; [done| |done].
  by destruct status.
Qed.

Lemma Run_record_fails r cmd err h :
  sink_cmd a arn r = Ok cmd →
  (CombinedOutput (sink w h cmd)).2 = Some err →
  body r h = (Stop (Returned (Some (errors.Wrap err "failed cmd"))),
              (h ++ [CallCombinedOutput cmd])%list).
Proof.
  intros Hcmd Herr. unfold Run_record, mbind, prog_bind, lift, call_CombinedOutput.
  rewrite Hcmd. destruct (CombinedOutput (sink w h cmd)) as [out e]. cbn in Herr. by subst e.
Qed.

Lemma Run_record_ok r cmd h :
  sink_cmd a arn r = Ok cmd →
  exits_zero (sink w h cmd) = true →
  body r h = (Next tt, (h ++ [CallCombinedOutput cmd; Sleep 5])%list).
Proof.
  intros Hcmd Herr%CombinedOutput_nil.
  unfold Run_record, mbind, prog_bind, lift, call_CombinedOutput.
  rewrite Hcmd. destruct (CombinedOutput (sink w h cmd)) as [out e]. cbn in Herr. subst e.
  unfold sleep, emit. by rewrite <- app_assoc.
Qed.

Lemma Run_record_panics r p h :
  sink_cmd a arn r = Panic p → body r h = (Stop (Panicked p), h).
Proof.
  intros Hcmd. unfold Run_record, mbind, prog_bind, lift. by rewrite Hcmd.
Qed.

(** One iteration of the loop. *)
Lemma Run_loop_iteration gro script itr h :
  Run_loop w a arn (Reply gro :: script) (Some itr) h =
    match for_range (dynamodbstreams.Records gro) body
            (h ++ [CallGetRecords {| dynamodbstreams.GetRecords_ShardIterator := Some itr |}])%list with
    | (Stop o, h1) => (Stop o, h1)
    | (Next _, h1) =>
      match dynamodbstreams.NextShardIterator gro with
      | None => (Stop (Panicked NilDereference), h1)
      | Some s =>
        if decide (s = "") then (Stop (Returned None), h1)
        else Run_loop w a arn script (Some s) (h1 ++ [Sleep 5])%list
      end
    end.
Proof.
  cbn. unfold mbind, prog_bind, emit. cbn.
  destruct (for_range _ _ _) as [[[]|o] h1]; [|done].
  destruct (dynamodbstreams.NextShardIterator gro) as [s|]; [|done]. cbn.
  by destruct (decide (s = "")).
Qed.

(** A poll that fails ends the run with its error. *)
Lemma Run_loop_failure err script itr h :
  Run_loop w a arn (Fail err :: script) (Some itr) h =
    (Stop (Returned (Some (errors.Wrap err "failed get records"))),
     (h ++ [CallGetRecords {| dynamodbstreams.GetRecords_ShardIterator := Some itr |}])%list).
Proof. reflexivity. Qed.

Lemma run_of_loop itr h0 :
  Run_acquire w a [] = (Next (arn, itr), h0) →
  run w a =
    match Run_loop w a arn (GetRecords w) itr h0 with
    | (Stop o, h) => (o, h)
    | (Next _, h) => (Returned None, h)
    end.
Proof. intros Hacq. unfold run, Run, mbind, prog_bind. by rewrite Hacq. Qed.

(** Requests of a kind that neither the sink nor a pause belongs to are
    left as they are by the processing of a record. *)
Lemma Run_record_calls {B} (sel : event → option B) r h :
  quiet sel → omap sel (body r h).2 = omap sel h.
Proof.
  intros [Hsink Hsleep].
  unfold Run_record, mbind, prog_bind, lift, call_CombinedOutput.
  destruct (sink_cmd a arn r) as [cmd|p]; [|done].
  destruct (CombinedOutput (sink w h cmd)) as [out [err|]]; cbn.
  - by rewrite omap_app; cbn; rewrite Hsink, app_nil_r.
  - by rewrite !omap_app; cbn; rewrite Hsink, Hsleep, !app_nil_r.
Qed.

Lemma for_range_calls {B} (sel : event → option B) rs h :
  quiet sel → omap sel (for_range rs body h).2 = omap sel h.
Proof.
  intros Hq. revert h. induction rs as [|r rs IH]; intros h; cbn; [done|].
  unfold mbind, prog_bind.
  pose proof (Run_record_calls sel r h Hq) as Hr.
  destruct (body r h) as [[[]|o] h']; cbn in Hr; [|done].
  by rewrite IH.
Qed.

(** The loop asks for no shard iterator. *)
Lemma Run_loop_shard_iterator_calls script itr h :
  get_shard_iterator_calls (Run_loop w a arn script itr h).2 =
  get_shard_iterator_calls h.
Proof.
  assert (quiet (λ e, if e is CallGetShardIterator i then Some i else None))
    as Hq by done.
  revert itr h. induction script as [|answer script IH]; intros [itr|] h;
    [done..| |done].
  destruct answer as [gro|err].
  - rewrite Run_loop_iteration.
    pose proof (for_range_calls _ (dynamodbstreams.Records gro)
      (h ++ [CallGetRecords {| dynamodbstreams.GetRecords_ShardIterator := Some itr |}])%list
      Hq) as Hrs.
    rewrite omap_app in Hrs. cbn in Hrs. rewrite app_nil_r in Hrs.
    destruct (for_range _ _ _) as [[[]|o] h1]; cbn in Hrs; [|done].
    destruct (dynamodbstreams.NextShardIterator gro) as [s|]; [|done].
    destruct (decide (s = "")); [done|].
    rewrite IH. unfold get_shard_iterator_calls.
    by rewrite omap_app; cbn; rewrite app_nil_r.
  - rewrite Run_loop_failure. cbn [snd]. unfold get_shard_iterator_calls.
    by rewrite omap_app; cbn; rewrite app_nil_r.
Qed.

(** With a sink that succeeds whenever it is run, a batch of records
    that can all be transformed is processed to its end, and no poll
    happens meanwhile. *)
Lemma for_range_all_dispatched rs h :
  (∀ h cmd, exits_zero (sink w h cmd) = true) →
  Forall (λ r, ∃ cmd, sink_cmd a arn r = Ok cmd) rs →
  ∃ h1, for_range rs body h = (Next tt, h1)
      ∧ get_records_calls h1 = get_records_calls h
      ∧ length (sink_calls h1) = (length (sink_calls h) + length rs)%nat.
Proof.
  intros Hsink Hrs. revert h. induction Hrs as [|r rs [cmd Hcmd] _ IH]; intros h.
  - exists h. split_and!; [done..|]. cbn. lia.
  - destruct (IH (h ++ [CallCombinedOutput cmd; Sleep 5])%list) as (h1 & Hh1 & Hpolls & Hcalls).
    exists h1. cbn. unfold mbind, prog_bind.
    rewrite (Run_record_ok r cmd h Hcmd (Hsink _ _)).
    split_and!; [done| |].
    + rewrite Hpolls. unfold get_records_calls. by rewrite omap_app; cbn; rewrite app_nil_r.
    + rewrite Hcalls. unfold sink_calls. rewrite omap_app, length_app. cbn. lia.
Qed.

End run_facts.

(** ** The properties of the run *)



(** C9. [NewStreamRecord] dereferences the creation timestamp before
    anything else.  Without it the transformation panics with a nil
    dereference; with it the transformation yields a record body whose
    timestamp is the number of whole seconds since the epoch.  A record
    without it, reached at any place of any batch, ends the run by that
    panic: nothing is dispatched for it and [Run] returns no error. *)
Theorem NewStreamRecord_requires_timestamp (sr : dynamodbstreams.StreamRecord) :
  (dynamodbstreams.ApproximateCreationDateTime sr = None →
     NewStreamRecord (Some sr) = Panic NilDereference)
  ∧ (∀ t, dynamodbstreams.ApproximateCreationDateTime sr = Some t →
       (∃ d, NewStreamRecord (Some sr) = Ok d
           ∧ ApproximateCreationDateTime d = Some (wall_sec t))
       ∧ (∀ arn r, dynamodbstreams.Dynamodb r = Some sr → ∃ ev, envelope arn r = Ok ev))
  ∧ (∀ w a arn itr gro script pre post r h h1,
       dynamodbstreams.ApproximateCreationDateTime sr = None →
       dynamodbstreams.Dynamodb r = Some sr →
       dynamodbstreams.Records gro = (pre ++ r :: post)%list →
       for_range pre (Run_record w a arn)
         (h ++ [CallGetRecords {| dynamodbstreams.GetRecords_ShardIterator := Some itr |}])%list
         = (Next tt, h1) →
       Run_loop w a arn (Reply gro :: script) (Some itr) h =
         (Stop (Panicked NilDereference), h1)
       ∧ (Run_acquire w a [] = (Next (arn, Some itr), h) →
          GetRecords w = Reply gro :: script →
          run w a = (Panicked NilDereference, h1))).
Proof.
  split_and!.
  - apply NewStreamRecord_absent.
  - intros t Ht. split.
    + eexists. split; [by apply NewStreamRecord_present|done].
    + intros arn r Hbody. eexists. by apply (envelope_present arn r sr t).
  - intros w a arn itr gro script pre post r h h1 Hnone Hbody Hbatch Hpre.
    assert (sink_cmd a arn r = Panic NilDereference) as Hcmd
      by (unfold sink_cmd; by rewrite (envelope_absent arn r sr Hbody Hnone)).
    assert (Run_loop w a arn (Reply gro :: script) (Some itr) h =
              (Stop (Panicked NilDereference), h1)) as Hloop.
    { rewrite Run_loop_iteration, Hbatch.
      by rewrite (for_range_stop pre post r _ _ h1 _ _ Hpre
                    (Run_record_panics w a arn r _ h1 Hcmd)). }
    split; [done|].
    intros Hacq Hscript. by rewrite (run_of_loop _ _ _ _ _ Hacq), Hscript, Hloop.
Qed.

Lemma NewStreamRecord_requires_timestamp_witness :
  dynamodbstreams.ApproximateCreationDateTime sample.no_timestamp = None
  ∧ NewStreamRecord (Some sample.no_timestamp) = Panic NilDereference
  ∧ (run sample.world_no_timestamp sample.app).1 = Panicked NilDereference.
Proof.
  pose proof (NewStreamRecord_requires_timestamp sample.no_timestamp)
    as (Hpanic & _ & Hrun).
  split; [reflexivity|]. split; [exact (Hpanic eq_refl)|].
  edestruct (Hrun sample.world_no_timestamp sample.app (Some sample.stream_arn) "it0"
               {| dynamodbstreams.NextShardIterator := Some "";
                  dynamodbstreams.Records := [sample.record_of "e9" sample.no_timestamp] |}
               [] [] [] (sample.record_of "e9" sample.no_timestamp)
               (Run_acquire sample.world_no_timestamp sample.app []).2)
    as [_ Hwhole]; [reflexivity.. | vm_compute; reflexivity |].
  by rewrite (Hwhole ltac:(vm_compute; reflexivity) eq_refl).
Defined.

(** The list of shards is indexed at its last position. *)
Lemma index_last {A} (l : list A) (x : A) :
  last l = Some x → index l (Z.of_nat (length l) - 1) = Ok x.
Proof.
  intros Hlast. unfold index. rewrite last_lookup in Hlast.
  destruct l as [|y l]; [done|].
  rewrite decide_True by (cbn [length]; lia).
  replace (Z.to_nat (Z.of_nat (length (y :: l)) - 1)) with (pred (length (y :: l)))
    by (cbn [length]; lia).
  by rewrite Hlast.
Qed.

(** C6. When the table has a stream and the stream lists at least one
    shard, [Run] asks for a shard iterator exactly once in the whole run:
    for the last shard of the listing, on the stream of the table, with
    iterator type TRIM_HORIZON.  No other shard and no other start
    position is ever requested, however the run goes on. *)
Theorem Run_requests_last_shard_at_trim_horizon
    (w : World) (a : App)
    (dto : dynamodb.DescribeTableOutput) (tbl : dynamodb.TableDescription)
    (arn : string)
    (dso : dynamodbstreams.DescribeStreamOutput)
    (sd : dynamodbstreams.StreamDescription) (shard : dynamodbstreams.Shard) :
  DescribeTable w {| dynamodb.TableName := Some (table a) |} = Reply dto →
  dynamodb.Table dto = Some tbl →
  dynamodb.LatestStreamArn tbl = Some arn →
  arn ≠ "" →
  DescribeStream w {| dynamodbstreams.DescribeStream_StreamArn := Some arn |} = Reply dso →
  dynamodbstreams.StreamDescription_ dso = Some sd →
  last (dynamodbstreams.Shards sd) = Some shard →
  get_shard_iterator_calls (run w a).2 =
    [ {| dynamodbstreams.GetShardIterator_ShardId := dynamodbstreams.ShardId shard;
         dynamodbstreams.GetShardIterator_StreamArn := Some arn;
         dynamodbstreams.ShardIteratorType := Some "TRIM_HORIZON" |} ].
Proof.
  intros Hdto Htbl Harn Hne Hdso Hsd Hlast.
  unfold run, Run, Run_acquire, mbind, prog_bind, mret, prog_ret, emit, check, lift.
  cbn. rewrite Hdto. cbn. rewrite Htbl. cbn. rewrite Harn. cbn.
  rewrite (decide_False _ _ Hne), Hdso. cbn. rewrite Hsd. cbn.
  rewrite (index_last _ _ Hlast).
  destruct (GetShardIterator w _) as [gsio|err]; [|done].
  cbn.
  pose proof (Run_loop_shard_iterator_calls w a (Some arn) (GetRecords w)
                (dynamodbstreams.ShardIterator gsio)) as Hloop.
  match goal with
  | |- context [Run_loop w a (Some arn) (GetRecords w) _ ?h] => specialize (Hloop h)
  end.
  destruct (Run_loop _ _ _ _ _ _) as [[[]|o] h']; exact Hloop.
Qed.

Lemma Run_requests_last_shard_at_trim_horizon_witness :
  last sample.two_shards = Some {| dynamodbstreams.ShardId := Some "shard-1" |}
  ∧ get_shard_iterator_calls (run sample.world_empty_token sample.app).2 =
      [ {| dynamodbstreams.GetShardIterator_ShardId := Some "shard-1";
           dynamodbstreams.GetShardIterator_StreamArn := Some sample.stream_arn;
           dynamodbstreams.ShardIteratorType := Some "TRIM_HORIZON" |} ].
Proof.
  split; [reflexivity|].
  apply (Run_requests_last_shard_at_trim_horizon sample.world_empty_token sample.app
           {| dynamodb.Table := Some {| dynamodb.LatestStreamArn := Some sample.stream_arn |} |}
           {| dynamodb.LatestStreamArn := Some sample.stream_arn |}
           sample.stream_arn
           {| dynamodbstreams.StreamDescription_ :=
                Some {| dynamodbstreams.Shards := sample.two_shards |} |}
           {| dynamodbstreams.Shards := sample.two_shards |}
           {| dynamodbstreams.ShardId := Some "shard-1" |});
    [reflexivity..| discriminate | reflexivity | reflexivity | reflexivity].
Defined.

(** C8. When the table has a stream and the stream lists no shard, [Run]
    indexes the empty listing at position -1: the run ends in an
    index-out-of-range panic after the two describe calls, before any
    shard iterator is requested, and returns no error at all. *)
Theorem Run_panics_on_empty_shard_listing
    (w : World) (a : App)
    (dto : dynamodb.DescribeTableOutput) (tbl : dynamodb.TableDescription)
    (arn : string)
    (dso : dynamodbstreams.DescribeStreamOutput)
    (sd : dynamodbstreams.StreamDescription) :
  DescribeTable w {| dynamodb.TableName := Some (table a) |} = Reply dto →
  dynamodb.Table dto = Some tbl →
  dynamodb.LatestStreamArn tbl = Some arn →
  arn ≠ "" →
  DescribeStream w {| dynamodbstreams.DescribeStream_StreamArn := Some arn |} = Reply dso →
  dynamodbstreams.StreamDescription_ dso = Some sd →
  dynamodbstreams.Shards sd = [] →
  run w a =
    (Panicked (IndexOutOfRange (-1) 0),
     [ CallDescribeTable {| dynamodb.TableName := Some (table a) |};
       CallDescribeStream {| dynamodbstreams.DescribeStream_StreamArn := Some arn |} ]).
Proof.
  intros Hdto Htbl Harn Hne Hdso Hsd Hnone.
  unfold run, Run, Run_acquire, mbind, prog_bind, mret, prog_ret, emit, check, lift.
  cbn. rewrite Hdto. cbn. rewrite Htbl. cbn. rewrite Harn. cbn.
  rewrite (decide_False _ _ Hne), Hdso. cbn. rewrite Hsd. cbn.
  by rewrite Hnone.
Qed.

Lemma Run_panics_on_empty_shard_listing_witness :
  (run sample.world_no_shard sample.app).1 = Panicked (IndexOutOfRange (-1) 0)
  ∧ get_shard_iterator_calls (run sample.world_no_shard sample.app).2 = [].
Proof.
  rewrite (Run_panics_on_empty_shard_listing sample.world_no_shard sample.app
             {| dynamodb.Table := Some {| dynamodb.LatestStreamArn := Some sample.stream_arn |} |}
             {| dynamodb.LatestStreamArn := Some sample.stream_arn |}
             sample.stream_arn
             {| dynamodbstreams.StreamDescription_ := Some {| dynamodbstreams.Shards := [] |} |}
             {| dynamodbstreams.Shards := [] |}
             eq_refl eq_refl eq_refl ltac:(discriminate) eq_refl eq_refl eq_refl).
  split; reflexivity.
Defined.

(** The last iteration, when the answer carries an empty next iterator:
    [Run] returns nil once the batch is processed. *)
Lemma Run_loop_empty_token
    (w : World) (a : App) (arn : option string) (itr : string)
    (gro : dynamodbstreams.GetRecordsOutput)
    (script : list (reply dynamodbstreams.GetRecordsOutput)) (h h1 : list event) :
  dynamodbstreams.NextShardIterator gro = Some "" →
  for_range (dynamodbstreams.Records gro) (Run_record w a arn)
    (h ++ [CallGetRecords {| dynamodbstreams.GetRecords_ShardIterator := Some itr |}])%list
    = (Next tt, h1) →
  Run_loop w a arn (Reply gro :: script) (Some itr) h = (Stop (Returned None), h1).
Proof. intros Hnext Hbatch. by rewrite Run_loop_iteration, Hbatch, Hnext. Qed.

(** The last iteration, when the answer carries no next iterator at all:
    the batch is processed and then the nil iterator is dereferenced. *)
Lemma Run_loop_nil_token
    (w : World) (a : App) (arn : option string) (itr : string)
    (gro : dynamodbstreams.GetRecordsOutput)
    (script : list (reply dynamodbstreams.GetRecordsOutput)) (h h1 : list event) :
  dynamodbstreams.NextShardIterator gro = None →
  for_range (dynamodbstreams.Records gro) (Run_record w a arn)
    (h ++ [CallGetRecords {| dynamodbstreams.GetRecords_ShardIterator := Some itr |}])%list
    = (Next tt, h1) →
  Run_loop w a arn (Reply gro :: script) (Some itr) h = (Stop (Panicked NilDereference), h1).
Proof. intros Hnext Hbatch. by rewrite Run_loop_iteration, Hbatch, Hnext. Qed.


(** C4.  The polling loop of [Run] on a shard that closes after its
    second batch: the second answer carries no next iterator.  [Run]
    polls twice, dispatches both records, and then panics on the nil
    iterator instead of returning. *)
Theorem closed_shard_panics :
  let result := run sample.world_closed_shard sample.app in
  result.1 = Panicked NilDereference
  ∧ get_records_calls result.2 =
      [ {| dynamodbstreams.GetRecords_ShardIterator := Some "it0" |};
        {| dynamodbstreams.GetRecords_ShardIterator := Some "it1" |} ]
  ∧ length (sink_calls result.2) = 2%nat.
Proof. cbn zeta. split_and!; vm_compute; reflexivity. Qed.

(** ** The command line *)

Section split.

Context (sep : ascii).

Lemma Split_nonempty s : Split s sep ≠ [].
Proof.
  destruct s as [|c s]; cbn; [done|].
  case_decide; [done|]. by destruct (Split s sep).
Qed.

Lemma Split_concat s : String.concat (String sep "") (Split s sep) = s.
Proof.
  induction s as [|c s IH]; [done|]. cbn [Split].
  pose proof (Split_nonempty s) as Hne.
  case_decide as Hc.
  - subst c. destruct (Split s sep) as [|p ps] eqn:Hs; [done|].
    cbn. cbn in IH. by rewrite IH.
  - destruct (Split s sep) as [|p ps] eqn:Hs; [done|].
    destruct ps as [|q ps]; [cbn in *; by rewrite IH|].
    change (String.concat (String sep "") (String c p :: q :: ps))
      with (String c (String.concat (String sep "") (p :: q :: ps))).
    by rewrite IH.
Qed.

Lemma Split_length s : length (Split s sep) = S (occurrences sep s).
Proof.
  induction s as [|c s IH]; [done|]. cbn.
  pose proof (Split_nonempty s) as Hne.
  case_decide; cbn; [by rewrite IH|].
  destruct (Split s sep); [done|]. by rewrite <- IH.
Qed.

Lemma Split_pieces s : Forall (λ piece, occurrences sep piece = 0%nat) (Split s sep).
Proof.
  induction s as [|c s IH]; cbn; [by constructor|].
  case_decide as Hc; [by constructor|].
  destruct (Split s sep) as [|p ps]; [constructor; [|done]; cbn; by rewrite decide_False|].
  apply Forall_cons in IH as [Hp Hps]. constructor; [|done].
  cbn. by rewrite decide_False.
Qed.

Lemma Split_one s : occurrences sep s = 0%nat → Split s sep = [s].
Proof.
  induction s as [|c s IH]; [done|]. cbn.
  case_decide; [done|]. intros Hs. by rewrite (IH Hs).
Qed.

Lemma Split_append piece s :
  occurrences sep piece = 0%nat →
  Split (piece +:+ String sep s) sep = piece :: Split s sep.
Proof.
  induction piece as [|c piece IH].
  - intros _. change ("" +:+ String sep s) with (String sep s).
    cbn. by rewrite decide_True.
  - change (String c piece +:+ String sep s) with (String c (piece +:+ String sep s)).
    cbn. case_decide; [done|]. intros Hp. by rewrite (IH Hp).
Qed.

End split.

(** [strings.Split] as [NewApp] uses it.  Joining the pieces with the
    separator gives the string back; there is one piece more than there
    are separators, so never none; no piece contains the separator; and
    splitting is the only way to cut a string so: any non-empty list of
    pieces without separator is what its join splits into. *)
Theorem Split_round_trip (sep : ascii) (s : string) :
  String.concat (String sep "") (Split s sep) = s
  ∧ length (Split s sep) = S (occurrences sep s)
  ∧ Forall (λ piece, occurrences sep piece = 0%nat) (Split s sep)
  ∧ (∀ pieces, pieces ≠ [] →
       Forall (λ piece, occurrences sep piece = 0%nat) pieces →
       Split (String.concat (String sep "") pieces) sep = pieces).
Proof.
  split_and!; [apply Split_concat | apply Split_length | apply Split_pieces |].
  intros pieces Hne Hpieces. clear s.
  induction Hpieces as [|p ps Hp Hps IH]; [done|].
  destruct ps as [|q ps]; [by apply Split_one|].
  change (String.concat (String sep "") (p :: q :: ps))
    with (p +:+ String sep "" +:+ String.concat (String sep "") (q :: ps)).
  change (String sep "" +:+ ?x) with (String sep x).
  rewrite (Split_append _ _ _ Hp). by rewrite IH.
Qed.

(** ** What a run asks of its environment *)

Section adds_facts.

Context (Q : event → Prop).

Lemma adds_ret {A} (x : A) : adds Q (mret x).
Proof. intros h s h' [= <- <-]. exists []. by rewrite app_nil_r. Qed.

Lemma adds_stop {A} (o : outcome) : adds Q (λ h, (Stop (A:=A) o, h)).
Proof. intros h s h' [= <- <-]. exists []. by rewrite app_nil_r. Qed.

Lemma adds_lift {A} (r : result A) : adds Q (lift r).
Proof. intros h s h'. destruct r; intros [= <- <-]; exists []; by rewrite app_nil_r. Qed.

Lemma adds_emit e : Q e → adds Q (emit e).
Proof. intros He h s h' [= <- <-]. exists [e]. split; [done|]. by constructor. Qed.

Lemma adds_check {A} (r : reply A) msg : adds Q (check r msg).
Proof. destruct r; [apply adds_ret | apply adds_stop]. Qed.

Lemma adds_bind {A B} (m : prog A) (f : A → prog B) :
  adds Q m → (∀ x, adds Q (f x)) → adds Q (m ≫= f).
Proof.
  intros Hm Hf h s h'. unfold mbind, prog_bind.
  destruct (m h) as [[x|o] h1] eqn:Hmh.
  - destruct (Hm _ _ _ Hmh) as (ext1 & -> & Hext1). intros Hfx.
    destruct (Hf _ _ _ _ Hfx) as (ext2 & -> & Hext2).
    exists (ext1 ++ ext2)%list. split; [by rewrite app_assoc|]. by apply Forall_app.
  - intros [= <- <-]. by apply (Hm _ _ _ Hmh).
Qed.

Lemma adds_for_range {A} (l : list A) (f : A → prog unit) :
  (∀ x, adds Q (f x)) → adds Q (for_range l f).
Proof.
  intros Hf. induction l as [|x l IH]; cbn; [apply adds_ret|].
  apply adds_bind; [apply Hf|]. by intros _.
Qed.

End adds_facts.

Lemma Run_record_adds w a arn r : adds (Run_event a) (Run_record w a arn r).
Proof.
  intros h s h'. unfold Run_record, mbind, prog_bind, lift, call_CombinedOutput.
  unfold sink_cmd, envelope.
  destruct (NewRecord r) as [nr|p]; [|intros [= <- <-]; exists []; by rewrite app_nil_r].
  assert (Run_event a (CallCombinedOutput
            {| Path := command a; Args := args a;
               Stdin := marshal_DynamoDBEvent
                 {| Records := Some [ {| AwsRegion := AwsRegion nr; Dynamodb := Dynamodb nr;
                      EventID := EventID nr; EventName := EventName nr;
                      EventSource := EventSource nr; EventVersion := EventVersion nr;
                      EventSourceArn := arn; UserIdentity := UserIdentity nr |} ] |} |}))
    as Hcall by (cbn; split_and!; [done..|by eexists _, _]).
  destruct (CombinedOutput _) as [out [err|]]; cbn; intros [= <- <-].
  - eexists [_]. split; [done|]. constructor; [exact Hcall|constructor].
  - eexists [_; _]. split; [by rewrite <- app_assoc|].
    constructor; [exact Hcall|]. constructor; [done|constructor].
Qed.

Lemma Run_loop_adds w a arn script itr :
  adds (Run_event a) (Run_loop w a arn script itr).
Proof.
  revert itr. induction script as [|answer script IH]; intros itr; cbn [Run_loop].
  - apply adds_bind; [apply adds_lift|]. intros _. apply adds_stop.
  - apply adds_bind; [apply adds_lift|]. intros _.
    apply adds_bind; [by apply adds_emit|]. intros _.
    apply adds_bind; [apply adds_check|]. intros gro.
    apply adds_bind; [apply adds_for_range; intros r; apply Run_record_adds|]. intros _.
    apply adds_bind; [apply adds_lift|]. intros s.
    case_decide; [apply adds_stop|].
    apply adds_bind; [by apply adds_emit|]. intros _. apply IH.
Qed.

Lemma Run_acquire_adds w a : adds (Run_event a) (Run_acquire w a).
Proof.
  unfold Run_acquire.
  apply adds_bind; [by apply adds_emit|]. intros _.
  apply adds_bind; [apply adds_check|]. intros dto.
  apply adds_bind; [apply adds_lift|]. intros tbl.
  apply adds_bind; [apply adds_lift|]. intros arn.
  case_decide; [apply adds_stop|].
  apply adds_bind; [by apply adds_emit|]. intros _.
  apply adds_bind; [apply adds_check|]. intros dso.
  apply adds_bind; [apply adds_lift|]. intros sd.
  apply adds_bind; [apply adds_lift|]. intros shard.
  apply adds_bind; [by apply adds_emit|]. intros _.
  apply adds_bind; [apply adds_check|]. intros gsio.
  apply adds_ret.
Qed.

(** Every stretch of [Run] adds only events the application may ask. *)
Lemma Run_adds (w : World) (a : App) : adds (Run_event a) (Run w a).
Proof.
  unfold Run. apply adds_bind; [apply Run_acquire_adds|].
  intros [arn itr]. apply Run_loop_adds.
Qed.

(** X6. Whatever the environment answers, a run asks only what the
    application is configured for: the table of the application, its
    stream, shard iterators at the trim horizon only, records, the
    configured command with the configured arguments and the envelope of
    exactly one record on its input, and pauses of five seconds. *)
Theorem Run_asks_only_its_own (w : World) (a : App) :
  Forall (Run_event a) (run w a).2.
Proof.
  pose proof (Run_adds w a) as Hrun. unfold run.
  destruct (Run w a []) as [[[]|o] h] eqn:HRun;
    by destruct (Hrun _ _ _ HRun) as (ext & -> & Hext).
Qed.

(** X5. The application [NewApp] builds never fails to build and runs the
    sink with the pieces of the [args] flag between its commas as
    arguments: a run started by [_main] invokes nothing but [command]
    with exactly these arguments, of which there is always at least one;
    with the flag empty the one argument is the empty string. *)
Theorem main_runs_configured_command
    (w : World) (endpoint table command args : string) (cmd : Cmd) :
  cmd ∈ sink_calls (_main w endpoint table command args).2 →
  (NewApp endpoint table command args).2 = None
  ∧ Path cmd = command
  ∧ Args cmd = Split args ","%char
  ∧ Args cmd ≠ []
  ∧ (args = "" → Args cmd = [""]).
Proof.
  intros Hcmd.
  assert (Forall (Run_event (NewApp endpoint table command args).1)
            (_main w endpoint table command args).2) as Hevents.
  { unfold _main. cbn.
    pose proof (Run_adds w (NewApp endpoint table command args).1) as Hrun.
    cbn in Hrun. unfold run.
    destruct (Run w _ []) as [[[]|[[err|]|p|]] h] eqn:HRun;
      by destruct (Hrun _ _ _ HRun) as (ext & -> & Hext). }
  unfold sink_calls in Hcmd. apply list_elem_of_omap in Hcmd as (e & He & Hsel).
  destruct e; try done. injection Hsel as ->.
  rewrite Forall_forall in Hevents. apply Hevents in He as (Hpath & Hargs & _).
  cbn in Hpath, Hargs. split_and!; [done..| |].
  - rewrite Hargs. apply Split_nonempty.
  - intros ->. by rewrite Hargs.
Qed.

Lemma main_runs_configured_command_witness :
  ∃ cmd, cmd ∈ sink_calls (_main sample.world_empty_token "" "orders" "wc" "-l,-w").2
       ∧ Args cmd = ["-l"; "-w"].
Proof.
  destruct (sink_calls (_main sample.world_empty_token "" "orders" "wc" "-l,-w").2)
    as [|cmd l] eqn:Hcalls; [by vm_compute in Hcalls|].
  exists cmd. split; [left|].
  assert (cmd ∈ sink_calls (_main sample.world_empty_token "" "orders" "wc" "-l,-w").2)
    as Hin by (rewrite Hcalls; left).
  by destruct (main_runs_configured_command _ _ _ _ _ _ Hin) as (_ & _ & -> & _).
Defined.

(** ** Reading the encoding back *)

Lemma present_false {A} (o : option A) : present o = false → o = None.
Proof. by destruct o. Qed.

Lemma populated_head a v rest : populated a = v :: rest → is_populated a v = true.
Proof. intros H. by apply filter_head in H as (_ & _ & _ & _ & ?). Qed.

(** With at most the variant [v] populated, every other field is nil. *)
Lemma populated_at_most a v :
  (∀ u, u ∈ populated a → u = v) → a = only v a.
Proof.
  intros Hall.
  assert (∀ u, u ≠ v → is_populated a u = false) as Hnone.
  { intros u Hu. destruct (is_populated a u) eqn:Hp; [|done].
    apply populated_elem, Hall in Hp. done. }
  destruct a as [b bo bs l m n ns nu s ss].
  assert (vB ≠ v → b = None) as Hb by (intros H; apply present_false, (Hnone vB H)).
  assert (vBOOL ≠ v → bo = None) as Hbo by (intros H; apply present_false, (Hnone vBOOL H)).
  assert (vBS ≠ v → bs = None) as Hbs by (intros H; apply present_false, (Hnone vBS H)).
  assert (vL ≠ v → l = None) as Hl by (intros H; apply present_false, (Hnone vL H)).
  assert (vM ≠ v → m = None) as Hm by (intros H; apply present_false, (Hnone vM H)).
  assert (vN ≠ v → n = None) as Hn by (intros H; apply present_false, (Hnone vN H)).
  assert (vNS ≠ v → ns = None) as Hns by (intros H; apply present_false, (Hnone vNS H)).
  assert (vNULL ≠ v → nu = None) as Hnu by (intros H; apply present_false, (Hnone vNULL H)).
  assert (vS ≠ v → s = None) as Hs by (intros H; apply present_false, (Hnone vS H)).
  assert (vSS ≠ v → ss = None) as Hss by (intros H; apply present_false, (Hnone vSS H)).
  clear Hall Hnone.
  destruct v; unfold only, keep; cbn;
    rewrite ?Hb, ?Hbo, ?Hbs, ?Hl, ?Hm, ?Hn, ?Hns, ?Hnu, ?Hs, ?Hss by done; reflexivity.
Qed.

Lemma populated_nil a : populated a = [] → a = unpopulated.
Proof.
  intros Hnil.
  rewrite (populated_at_most a vB) by (intros u; rewrite Hnil; by intros ?%elem_of_nil).
  assert (is_populated a vB = false) as Hb.
  { destruct (is_populated a vB) eqn:Hp; [|done].
    apply populated_elem in Hp. rewrite Hnil in Hp. by apply elem_of_nil in Hp. }
  destruct a as [b bo bs l m n ns nu s ss]. cbn in Hb. apply present_false in Hb.
  by subst b.
Qed.

Lemma weight_member (l : list dynamodb.AttributeValue) x :
  x ∈ l → (weight x ≤ foldr (λ x n, weight x + n) 0 l)%nat.
Proof.
  induction l as [|y l IH]; [by intros ?%elem_of_nil|].
  intros [->|Hx]%elem_of_cons; cbn; [lia|]. specialize (IH Hx). lia.
Qed.

Lemma weight_entry (m : gmap string dynamodb.AttributeValue) k x :
  m !! k = Some x → (weight x ≤ map_fold (λ _ x n, weight x + n) 0 m)%nat.
Proof.
  revert k x. induction m as [|j y m Hj Hfold IH] using map_first_key_ind.
  - intros k x. by rewrite lookup_empty.
  - intros k x. rewrite map_fold_insert_first_key by done.
    rewrite lookup_insert. case_decide.
    + intros [= ->]. lia.
    + intros Hk. specialize (IH _ _ Hk). lia.
Qed.

(** Induction over an attribute value and the members below it. *)
Lemma AttributeValue_nested_ind (P : dynamodb.AttributeValue → Prop) :
  (∀ a,
     (∀ l, dynamodb.L a = Some l → Forall P l) →
     (∀ m, dynamodb.M a = Some m → map_Forall (λ _, P) m) →
     P a) →
  ∀ a, P a.
Proof.
  intros Hnode a. remember (weight a) as n eqn:Hn. revert a Hn.
  induction n as [n IH] using lt_wf_ind. intros a ->.
  apply Hnode.
  - intros l Hl. apply Forall_forall. intros x Hx.
    apply (IH (weight x)); [|done].
    pose proof (weight_member l x Hx). destruct a. cbn in *. subst. lia.
  - intros m Hm k x Hk.
    apply (IH (weight x)); [|done].
    pose proof (weight_entry m k x Hk). destruct a. cbn in *. subst. lia.
Qed.

Lemma decode_NewAttributeValue a : canonical a → decode (NewAttributeValue a) = a.
Proof.
  induction a as [a IHl IHm] using AttributeValue_nested_ind.
  intros Hcan. inversion Hcan as [a' Hlen Hl Hm]; subst a'.
  destruct (populated a) as [|v [|u rest]] eqn:Hpop; [| |cbn in Hlen; lia].
  - rewrite (NewAttributeValue_none _ Hpop). symmetry. by apply populated_nil.
  - rewrite (NewAttributeValue_first _ _ _ Hpop).
    assert (a = only v a) as Honly
      by (apply populated_at_most; intros u; rewrite Hpop; by intros ?%list_elem_of_singleton).
    pose proof (populated_head _ _ _ Hpop) as Hv.
    transitivity (only v a); [|by symmetry]. clear Hpop Honly Hcan Hlen.
    destruct a as [b bo bs l m n ns nu s ss]. cbn in IHl, IHm, Hl, Hm.
    destruct v; try reflexivity.
    + destruct l as [l|]; [|done].
      unfold only, keep. cbn. do 2 f_equal.
      specialize (IHl l eq_refl). specialize (Hl l eq_refl).
      rewrite <- list_fmap_compose. rewrite <- (list_fmap_id l) at 2.
      apply Forall_fmap_ext. rewrite Forall_forall in IHl, Hl |- *.
      intros x Hx. cbn. by apply IHl, Hl.
    + destruct m as [m|]; [|done].
      unfold only, keep. cbn. do 2 f_equal.
      specialize (IHm m eq_refl). specialize (Hm m eq_refl).
      rewrite <- map_fmap_compose. rewrite <- (map_fmap_id m) at 2.
      apply map_fmap_ext. intros k x Hk. cbn. by apply (IHm k x Hk), (Hm k x Hk).
Qed.

(** X1. On attribute values with at most one populated variant per value,
    at every depth, the encoding loses nothing: reading the one populated
    field of the encoded value back, member by member, gives the
    attribute value it came from, so two such attribute values with the
    same encoding are the same. *)
Theorem NewAttributeValue_round_trip (a : dynamodb.AttributeValue) :
  canonical a →
  decode (NewAttributeValue a) = a
  ∧ (∀ b, canonical b → NewAttributeValue a = NewAttributeValue b → a = b).
Proof.
  intros Ha. split; [by apply decode_NewAttributeValue|].
  intros b Hb Heq.
  by rewrite <- (decode_NewAttributeValue a Ha), Heq, (decode_NewAttributeValue b Hb).
Qed.

Lemma canonical_string s : canonical (sample.string_of s).
Proof. constructor; [cbn; lia|done|done]. Qed.

Lemma NewAttributeValue_round_trip_witness :
  canonical sample.nested ∧ decode (NewAttributeValue sample.nested) = sample.nested.
Proof.
  assert (canonical sample.nested) as Hcan.
  { constructor; [cbn; lia| |done].
    intros l [= <-]. apply Forall_singleton.
    constructor; [cbn; lia|done|].
    intros m [= <-]. apply map_Forall_singleton.
    constructor; [cbn; lia| |done].
    intros l [= <-]. apply Forall_singleton, canonical_string. }
  split; [exact Hcan|]. exact (proj1 (NewAttributeValue_round_trip _ Hcan)).
Defined.

(** ** Acquisition: what ends the run before the loop *)

(** Unfolds [run] down to the calls of the environment. *)
Ltac unfold_run :=
  unfold run, Run, Run_acquire, mbind, prog_bind, mret, prog_ret, emit, check, lift,
    return_; cbn.

(** X7. When [DescribeTable] fails, [Run] returns its error wrapped as
    "failed describe table" and asks nothing more. *)
Theorem Run_describe_table_fails (w : World) (a : App) (err : error) :
  DescribeTable w {| dynamodb.TableName := Some (table a) |} = Fail err →
  run w a =
    (Returned (Some (errors.Wrap err "failed describe table")),
     [ CallDescribeTable {| dynamodb.TableName := Some (table a) |} ]).
Proof. intros Hdto. unfold_run. by rewrite Hdto. Qed.

Lemma Run_describe_table_fails_witness :
  run sample.world_table_missing sample.app =
    (Returned (Some (errors.Wrap (errors.External "ResourceNotFoundException")
                       "failed describe table")),
     [ CallDescribeTable {| dynamodb.TableName := Some "orders" |} ]).
Proof. by apply (Run_describe_table_fails sample.world_table_missing sample.app). Defined.

(** X8. A table without a stream.  When the description carries the empty
    string as stream ARN, [Run] returns the error "disable dynamodb
    streams"; when it carries no stream ARN at all, or no table, the test
    [*dto.Table.LatestStreamArn == ""] dereferences nil and the run
    panics.  Either way nothing is asked after [DescribeTable]. *)
Theorem Run_without_stream (w : World) (a : App) (dto : dynamodb.DescribeTableOutput) :
  DescribeTable w {| dynamodb.TableName := Some (table a) |} = Reply dto →
  let asked := [ CallDescribeTable {| dynamodb.TableName := Some (table a) |} ] in
  (∀ tbl, dynamodb.Table dto = Some tbl → dynamodb.LatestStreamArn tbl = Some "" →
     run w a = (Returned (Some (errors.New "disable dynamodb streams")), asked))
  ∧ (∀ tbl, dynamodb.Table dto = Some tbl → dynamodb.LatestStreamArn tbl = None →
       run w a = (Panicked NilDereference, asked))
  ∧ (dynamodb.Table dto = None → run w a = (Panicked NilDereference, asked)).
Proof.
  intros Hdto. cbn zeta. split_and!.
  - intros tbl Htbl Harn. unfold_run. rewrite Hdto. cbn. rewrite Htbl. cbn. by rewrite Harn.
  - intros tbl Htbl Harn. unfold_run. rewrite Hdto. cbn. rewrite Htbl. cbn. by rewrite Harn.
  - intros Htbl. unfold_run. rewrite Hdto. cbn. by rewrite Htbl.
Qed.

Lemma Run_without_stream_witness :
  run sample.world_stream_disabled sample.app =
    (Returned (Some (errors.New "disable dynamodb streams")),
     [ CallDescribeTable {| dynamodb.TableName := Some "orders" |} ])
  ∧ run sample.world_stream_never_enabled sample.app =
      (Panicked NilDereference,
       [ CallDescribeTable {| dynamodb.TableName := Some "orders" |} ]).
Proof.
  split.
  - by apply (proj1 (Run_without_stream sample.world_stream_disabled sample.app
                       {| dynamodb.Table := Some {| dynamodb.LatestStreamArn := Some "" |} |}
                       eq_refl)
                {| dynamodb.LatestStreamArn := Some "" |}).
  - by apply (proj1 (proj2 (Run_without_stream sample.world_stream_never_enabled sample.app
                       {| dynamodb.Table := Some {| dynamodb.LatestStreamArn := None |} |}
                       eq_refl))
                {| dynamodb.LatestStreamArn := None |}).
Defined.

Section stream_resolved.

Context (w : World) (a : App).
Context (dto : dynamodb.DescribeTableOutput) (tbl : dynamodb.TableDescription).
Context (arn : string).
Hypothesis Hdto : DescribeTable w {| dynamodb.TableName := Some (table a) |} = Reply dto.
Hypothesis Htbl : dynamodb.Table dto = Some tbl.
Hypothesis Harn : dynamodb.LatestStreamArn tbl = Some arn.
Hypothesis Hne : arn ≠ "".

Local Abbreviation described :=
  [ CallDescribeTable {| dynamodb.TableName := Some (table a) |};
    CallDescribeStream {| dynamodbstreams.DescribeStream_StreamArn := Some arn |} ].

(** X9. When [DescribeStream] fails, [Run] returns its error wrapped as
    "failed describe stream" and asks nothing more. *)
Theorem Run_describe_stream_fails (err : error) :
  DescribeStream w {| dynamodbstreams.DescribeStream_StreamArn := Some arn |} = Fail err →
  run w a = (Returned (Some (errors.Wrap err "failed describe stream")), described).
Proof using Hdto Htbl Harn Hne.
  intros Hdso. unfold_run. rewrite Hdto. cbn. rewrite Htbl. cbn. rewrite Harn. cbn.
  by rewrite (decide_False _ _ Hne), Hdso.
Qed.

(** X10. With a shard listed, the run does not reach the loop without an
    iterator.  When [GetShardIterator] fails, [Run] returns its error
    wrapped as "failed get shard iterator"; when it answers without an
    iterator, the first line of the loop dereferences nil and the run
    panics.  In both cases no poll is made. *)
Theorem Run_shard_iterator_unavailable
    (dso : dynamodbstreams.DescribeStreamOutput)
    (sd : dynamodbstreams.StreamDescription) (shard : dynamodbstreams.Shard) :
  DescribeStream w {| dynamodbstreams.DescribeStream_StreamArn := Some arn |} = Reply dso →
  dynamodbstreams.StreamDescription_ dso = Some sd →
  last (dynamodbstreams.Shards sd) = Some shard →
  let request :=
    {| dynamodbstreams.GetShardIterator_ShardId := dynamodbstreams.ShardId shard;
       dynamodbstreams.GetShardIterator_StreamArn := Some arn;
       dynamodbstreams.ShardIteratorType := Some "TRIM_HORIZON" |} in
  (∀ err, GetShardIterator w request = Fail err →
     run w a = (Returned (Some (errors.Wrap err "failed get shard iterator")),
                (described ++ [CallGetShardIterator request])%list))
  ∧ (∀ gsio, GetShardIterator w request = Reply gsio →
       dynamodbstreams.ShardIterator gsio = None →
       run w a = (Panicked NilDereference,
                  (described ++ [CallGetShardIterator request])%list)).
Proof using Hdto Htbl Harn Hne.
  intros Hdso Hsd Hlast. cbn zeta. split.
  - intros err Hgsio. unfold_run. rewrite Hdto. cbn. rewrite Htbl. cbn. rewrite Harn. cbn.
    rewrite (decide_False _ _ Hne), Hdso. cbn. rewrite Hsd. cbn.
    rewrite (index_last _ _ Hlast).
    unfold dynamodbstreams.ShardIteratorTypeTrimHorizon. by rewrite Hgsio.
  - intros gsio Hgsio Hnil. unfold_run. rewrite Hdto. cbn. rewrite Htbl. cbn. rewrite Harn. cbn.
    rewrite (decide_False _ _ Hne), Hdso. cbn. rewrite Hsd. cbn.
    rewrite (index_last _ _ Hlast).
    unfold dynamodbstreams.ShardIteratorTypeTrimHorizon. rewrite Hgsio. cbn.
    rewrite Hnil. by destruct (GetRecords w).
Qed.

End stream_resolved.

Lemma Run_describe_stream_fails_witness :
  (run sample.world_stream_failing sample.app).1 =
    Returned (Some (errors.Wrap (errors.External "InternalServerError")
                      "failed describe stream")).
Proof.
  rewrite (Run_describe_stream_fails sample.world_stream_failing sample.app
             {| dynamodb.Table := Some {| dynamodb.LatestStreamArn := Some sample.stream_arn |} |}
             {| dynamodb.LatestStreamArn := Some sample.stream_arn |} sample.stream_arn
             eq_refl eq_refl eq_refl ltac:(discriminate)
             (errors.External "InternalServerError") eq_refl).
  reflexivity.
Defined.

Lemma Run_shard_iterator_unavailable_witness :
  (run sample.world_iterator_failing sample.app).1 =
    Returned (Some (errors.Wrap (errors.External "TrimmedDataAccessException")
                      "failed get shard iterator"))
  ∧ (run sample.world_iterator_nil sample.app).1 = Panicked NilDereference.
Proof.
  split.
  - rewrite (proj1 (Run_shard_iterator_unavailable sample.world_iterator_failing sample.app
                      {| dynamodb.Table :=
                           Some {| dynamodb.LatestStreamArn := Some sample.stream_arn |} |}
                      {| dynamodb.LatestStreamArn := Some sample.stream_arn |}
                      sample.stream_arn
                      eq_refl eq_refl eq_refl ltac:(discriminate)
                      {| dynamodbstreams.StreamDescription_ :=
                           Some {| dynamodbstreams.Shards := sample.two_shards |} |}
                      {| dynamodbstreams.Shards := sample.two_shards |}
                      {| dynamodbstreams.ShardId := Some "shard-1" |}
                      eq_refl eq_refl eq_refl)
               (errors.External "TrimmedDataAccessException") eq_refl).
    reflexivity.
  - rewrite (proj2 (Run_shard_iterator_unavailable sample.world_iterator_nil sample.app
                      {| dynamodb.Table :=
                           Some {| dynamodb.LatestStreamArn := Some sample.stream_arn |} |}
                      {| dynamodb.LatestStreamArn := Some sample.stream_arn |}
                      sample.stream_arn
                      eq_refl eq_refl eq_refl ltac:(discriminate)
                      {| dynamodbstreams.StreamDescription_ :=
                           Some {| dynamodbstreams.Shards := sample.two_shards |} |}
                      {| dynamodbstreams.Shards := sample.two_shards |}
                      {| dynamodbstreams.ShardId := Some "shard-1" |}
                      eq_refl eq_refl eq_refl)
               {| dynamodbstreams.ShardIterator := None |} eq_refl eq_refl).
    reflexivity.
Defined.

(** ** The loop on a sink that succeeds *)

Section sink_succeeds.

Context (w : World) (a : App) (arn : option string).
Hypothesis Hsink : ∀ h cmd, exits_zero (sink w h cmd) = true.

Local Abbreviation transformable :=
  (λ r : dynamodbstreams.Record_, ∃ cmd, sink_cmd a arn r = Ok cmd).

Local Abbreviation clean :=
  (λ gro : dynamodbstreams.GetRecordsOutput,
     Forall transformable (dynamodbstreams.Records gro)).

Local Abbreviation goes_on :=
  (λ gro : dynamodbstreams.GetRecordsOutput,
     ∃ tok, dynamodbstreams.NextShardIterator gro = Some tok ∧ tok ≠ "").

(** The records of a batch are dispatched one after the other, each
    followed by its pause. *)
Lemma for_range_dispatched rs h :
  Forall transformable rs →
  for_range rs (Run_record w a arn) h =
    (Next tt,
     (h ++ flat_map (λ cmd, [CallCombinedOutput cmd; Sleep 5]) (omap (the_cmd a arn) rs))%list).
Proof using Hsink.
  intros Hrs. revert h. induction Hrs as [|r rs [cmd Hcmd] _ IH]; intros h.
  - cbn. by rewrite app_nil_r.
  - cbn [for_range]. unfold mbind, prog_bind.
    rewrite (Run_record_ok w a arn r cmd h Hcmd (Hsink _ _)), IH.
    cbn [omap list_omap]. unfold the_cmd at 2. rewrite Hcmd. cbn.
    by rewrite <- app_assoc.
Qed.

(** An iteration that goes on: its events, a pause, and the next
    iteration with the iterator the answer gave. *)
Lemma Run_loop_goes_on gro script itr tok h :
  clean gro →
  dynamodbstreams.NextShardIterator gro = Some tok → tok ≠ "" →
  Run_loop w a arn (Reply gro :: script) (Some itr) h =
    Run_loop w a arn script (Some tok)
      (h ++ batch_events a arn (Some itr) gro ++ [Sleep 5])%list.
Proof using Hsink.
  intros Hclean Htok Hne. rewrite Run_loop_iteration, (for_range_dispatched _ _ Hclean), Htok.
  rewrite decide_False by done. unfold batch_events. f_equal.
  by rewrite <- !app_assoc.
Qed.

Lemma Run_loop_drained batches final more itr h :
  Forall clean (batches ++ [final]) →
  Forall goes_on batches →
  dynamodbstreams.NextShardIterator final = Some "" →
  Run_loop w a arn ((Reply <$> batches) ++ Reply final :: more) (Some itr) h =
    (Stop (Returned None), (h ++ drained_events a arn (Some itr) batches final)%list).
Proof using Hsink.
  intros Hclean Hgo Hfinal. revert itr h.
  induction batches as [|gro batches IH]; intros itr h; cbn [app] in Hclean;
    apply Forall_cons in Hclean as [Hgro Hclean].
  - cbn [fmap list_fmap app drained_events].
    rewrite Run_loop_iteration, (for_range_dispatched _ _ Hgro), Hfinal. cbn.
    unfold batch_events. by rewrite <- app_assoc.
  - apply Forall_cons in Hgo as [(tok & Htok & Hne) Hgo].
    cbn [fmap list_fmap app drained_events].
    rewrite (Run_loop_goes_on _ _ _ _ _ Hgro Htok Hne), (IH Hclean Hgo), Htok.
    by rewrite <- !app_assoc.
Qed.

Lemma sink_calls_batch itr gro :
  sink_calls (batch_events a arn itr gro) = omap (the_cmd a arn) (dynamodbstreams.Records gro).
Proof.
  unfold batch_events, sink_calls. cbn.
  induction (omap (the_cmd a arn) (dynamodbstreams.Records gro)) as [|c l IH]; [done|].
  cbn. by rewrite IH.
Qed.

Lemma sleeps_batch itr gro :
  clean gro →
  sleeps (batch_events a arn itr gro) = replicate (length (dynamodbstreams.Records gro)) 5.
Proof.
  intros Hclean. unfold batch_events, sleeps. cbn.
  induction Hclean as [|r rs [cmd Hcmd] _ IH]; [done|].
  cbn [omap list_omap]. unfold the_cmd at 1. rewrite Hcmd. cbn. by rewrite IH.
Qed.

Lemma length_omap_transformable rs :
  Forall transformable rs → length (omap (the_cmd a arn) rs) = length rs.
Proof.
  induction 1 as [|r rs [cmd Hcmd] _ IH]; [done|].
  cbn [omap list_omap]. unfold the_cmd at 1. rewrite Hcmd. cbn. by rewrite IH.
Qed.

Lemma sink_calls_drained it batches final :
  sink_calls (drained_events a arn it batches final) =
  omap (the_cmd a arn) (concat (dynamodbstreams.Records <$> (batches ++ [final])%list)).
Proof.
  revert it. induction batches as [|gro batches IH]; intros it;
    cbn [app fmap list_fmap concat drained_events].
  - by rewrite sink_calls_batch, app_nil_r.
  - unfold sink_calls in *. rewrite omap_app. cbn [omap list_omap].
    rewrite IH. fold (sink_calls (batch_events a arn it gro)).
    by rewrite sink_calls_batch, omap_app.
Qed.

Lemma sleeps_drained it batches final :
  Forall clean (batches ++ [final]) →
  sleeps (drained_events a arn it batches final) =
  replicate (length (concat (dynamodbstreams.Records <$> (batches ++ [final])%list))
             + length batches) 5.
Proof.
  revert it. induction batches as [|gro batches IH]; intros it Hclean; cbn [app] in Hclean;
    apply Forall_cons in Hclean as [Hgro Hclean];
    cbn [app fmap list_fmap concat drained_events].
  - rewrite sleeps_batch by done. by rewrite app_nil_r, Nat.add_0_r.
  - unfold sleeps in *. rewrite omap_app. cbn [omap list_omap].
    rewrite (IH _ Hclean). fold (sleeps (batch_events a arn it gro)).
    rewrite sleeps_batch by done. rewrite length_app. cbn [length].
    rewrite <- replicate_S, <- replicate_add. f_equal. lia.
Qed.



End sink_succeeds.




(** ** How a run ends *)

Lemma Run_outcome_mono script script' o :
  script ⊆ script' → Run_outcome script o → Run_outcome script' o.
Proof.
  intros Hsub. destruct o as [[err|]|p|]; cbn; [done| |done|done].
  intros (gro & Hin & Hnext). exists gro. split; [by apply Hsub|done].
Qed.

Lemma Run_record_ends w a arn r h o h' :
  Run_record w a arn r h = (Stop o, h') → Run_outcome [] o.
Proof.
  unfold Run_record, mbind, prog_bind, lift, call_CombinedOutput.
  destruct (sink_cmd a arn r) as [cmd|p]; [|by intros [= <- _]].
  destruct (CombinedOutput _) as [out [err|]]; cbn; [|done].
  intros [= <- _]. cbn. right. eexists _, _. split; [done|].
  unfold stage_messages. set_solver.
Qed.

Lemma for_range_ends w a arn rs h o h' :
  for_range rs (Run_record w a arn) h = (Stop o, h') → Run_outcome [] o.
Proof.
  revert h. induction rs as [|r rs IH]; intros h; cbn; [done|].
  unfold mbind, prog_bind.
  destruct (Run_record w a arn r h) as [[[]|o1] h1] eqn:Hr.
  - apply IH.
  - intros [= <- _]. by apply Run_record_ends in Hr.
Qed.

Lemma Run_loop_ends w a arn script itr h s h' :
  Run_loop w a arn script itr h = (s, h') → ∃ o, s = Stop o ∧ Run_outcome script o.
Proof.
  revert itr h. induction script as [|answer script IH]; intros [itr|] h;
    [intros [= <- _]; by eexists..| |intros [= <- _]; by eexists].
  destruct answer as [gro|err].
  - rewrite Run_loop_iteration.
    destruct (for_range _ _ _) as [[[]|o1] h1] eqn:Hrs.
    + destruct (dynamodbstreams.NextShardIterator gro) as [tok|] eqn:Htok;
        [|intros [= <- _]; by eexists].
      case_decide as Hempty.
      * intros [= <- _]. eexists. split; [done|]. cbn. exists gro. subst tok.
        split; [left|done].
      * intros (o & -> & Ho)%IH. exists o. split; [done|].
        eapply Run_outcome_mono; [|done]. set_solver.
    + intros [= <- _]. exists o1. split; [done|].
      apply for_range_ends in Hrs. eapply Run_outcome_mono; [|done]. set_solver.
  - rewrite Run_loop_failure. intros [= <- _]. eexists. split; [done|].
    cbn. right. eexists _, _. split; [done|]. unfold stage_messages. set_solver.
Qed.

Lemma Run_acquire_ends w a h o h' :
  Run_acquire w a h = (Stop o, h') → Run_outcome [] o.
Proof.
  unfold Run_acquire, mbind, prog_bind, mret, prog_ret, emit, check, lift, return_. cbn.
  assert (∀ cause msg, msg ∈ stage_messages →
            Run_outcome [] (Returned (Some (errors.Wrap cause msg)))) as Hwrap
    by (intros cause msg Hmsg; right; by eexists _, _).
  destruct (DescribeTable w _) as [dto|err];
    [|intros [= <- _]; apply Hwrap; unfold stage_messages; set_solver].
  cbn. destruct (dynamodb.Table dto) as [tbl|]; [|by intros [= <- _]].
  cbn. destruct (dynamodb.LatestStreamArn tbl) as [arn|]; [|by intros [= <- _]].
  cbn. case_decide; [intros [= <- _]; by left|].
  destruct (DescribeStream w _) as [dso|err];
    [|intros [= <- _]; apply Hwrap; unfold stage_messages; set_solver].
  cbn. destruct (dynamodbstreams.StreamDescription_ dso) as [sd|]; [|by intros [= <- _]].
  cbn. destruct (index _ _) as [shard|p]; [|by intros [= <- _]].
  cbn. destruct (GetShardIterator w _) as [gsio|err];
    [done|intros [= <- _]; apply Hwrap; unfold stage_messages; set_solver].
Qed.

(** X14. How a run can end.  [Run] returns nil only when some poll was
    answered with the empty string as next iterator; an error it returns
    is the error "disable dynamodb streams" or an error of its
    environment wrapped under one of the five stage messages; anything
    else is a panic or a wait for an answer. *)
Theorem Run_ends (w : World) (a : App) : Run_outcome (GetRecords w) (run w a).1.
Proof.
  unfold run, Run, mbind, prog_bind.
  destruct (Run_acquire w a []) as [[[arn itr]|o] h] eqn:Hacq.
  - destruct (Run_loop w a arn (GetRecords w) itr h) as [s h'] eqn:Hloop.
    by apply Run_loop_ends in Hloop as (o & -> & Ho).
  - apply Run_acquire_ends in Hacq. eapply Run_outcome_mono; [|done]. set_solver.
Qed.

(** X15. The exit status.  The process exits with status 0 only when some
    poll was answered with the empty string as next iterator, and with
    status 1 exactly when [Run] returns an error; it never exits with
    another status, and a panic of [Run] is a crash, not an exit. *)
Theorem main_exit_status (w : World) (endpoint table command args : string) :
  let app := (NewApp endpoint table command args).1 in
  match (_main w endpoint table command args).1 with
  | Exit code =>
    (code = 0 ∧ (run w app).1 = Returned None
     ∧ ∃ gro, Reply gro ∈ GetRecords w ∧ dynamodbstreams.NextShardIterator gro = Some "")
    ∨ (code = 1 ∧ ∃ err, (run w app).1 = Returned (Some err))
  | Crash p => (run w app).1 = Panicked p
  | Hang => (run w app).1 = Blocked
  end.
Proof.
  cbn zeta. unfold _main. cbn.
  set (app := {| table := table; command := command; args := Split args ","%char |}).
  assert (Run_outcome (GetRecords w) (run w app).1) as Hends.
  { unfold run, Run, mbind, prog_bind.
    destruct (Run_acquire w app []) as [[[arn itr]|o] h] eqn:Hacq.
    - destruct (Run_loop w app arn (GetRecords w) itr h) as [s h'] eqn:Hloop.
      by apply Run_loop_ends in Hloop as (o & -> & Ho).
    - apply Run_acquire_ends in Hacq. eapply Run_outcome_mono; [|done]. set_solver. }
  destruct (run w app) as [[[err|]|p|] h]; cbn in *; [|by left|done|done].
  right. split; [done|by eexists].
Qed.

(** ** The document the sink receives *)

Lemma assoc_app name l1 l2 :
  assoc name (l1 ++ l2) = match assoc name l1 with Some v => Some v | None => assoc name l2 end.
Proof.
  induction l1 as [|[k v] l1 IH]; [done|]. cbn. by case_decide.
Qed.

Lemma assoc_field_omitempty {A} name name' (f : A → json) (m : gomap A) :
  assoc name (field_omitempty name' f m) =
    if decide (name' = name) then
      if decide (len_map m = 0%nat) then None else Some (marshal_map f m)
    else None.
Proof.
  unfold field_omitempty. case_decide; cbn; by repeat case_decide.
Qed.

(** X2. The serialized record body.  Each of [Keys], [NewImage] and
    [OldImage] is a member exactly when the raw map has at least one
    entry, a nil and an empty raw map giving the same document; when it
    is a member it is an object with one member for each attribute of the
    raw map and no other, holding the encoding of that attribute.  The
    timestamp, in whole seconds, the sequence number and the size are
    always members, and [StreamViewType] is always [null]. *)
Theorem StreamRecord_members (sr : dynamodbstreams.StreamRecord) (t : Time) :
  dynamodbstreams.ApproximateCreationDateTime sr = Some t →
  ∃ d, NewStreamRecord (Some sr) = Ok d
     ∧ (∀ name raw,
          (name, raw) ∈ [ ("Keys", dynamodbstreams.Keys sr);
                          ("NewImage", dynamodbstreams.NewImage sr);
                          ("OldImage", dynamodbstreams.OldImage sr) ] →
          member name (marshal_StreamRecord d) =
            (if decide (len_map raw = 0%nat) then None
             else Some (marshal_map marshal_iface (NewAttributeValueMap raw)))
          ∧ ∀ k, member k (marshal_map marshal_iface (NewAttributeValueMap raw)) =
                   (λ x, marshal_iface (NewAttributeValue x)) <$> range_map raw !! k)
     ∧ member "ApproximateCreationDateTime" (marshal_StreamRecord d) =
         Some (JNumber (wall_sec t))
     ∧ member "SequenceNumber" (marshal_StreamRecord d) =
         Some (marshal_ptr JString (dynamodbstreams.SequenceNumber sr))
     ∧ member "SizeBytes" (marshal_StreamRecord d) =
         Some (marshal_ptr JNumber (dynamodbstreams.SizeBytes sr))
     ∧ member "StreamViewType" (marshal_StreamRecord d) = Some JNull.
Proof.
  intros Ht. eexists. split; [by apply NewStreamRecord_present|].
  unfold marshal_StreamRecord. cbn [Keys NewImage OldImage ApproximateCreationDateTime
    SequenceNumber SizeBytes StreamViewType].
  assert (∀ raw k, member k (marshal_map marshal_iface (NewAttributeValueMap raw)) =
            (λ x, marshal_iface (NewAttributeValue x)) <$> range_map raw !! k) as Hentries.
  { intros raw k. unfold NewAttributeValueMap.
    rewrite member_marshal_map, lookup_fmap. by destruct (range_map raw !! k). }
  split_and!; [|reflexivity| | |].
  - intros name raw Hin. split; [|apply Hentries].
    unfold member. cbn [members_of]. rewrite !assoc_app, !assoc_field_omitempty.
    rewrite !len_NewAttributeValueMap.
    repeat (apply elem_of_cons in Hin as [[= -> ->]|Hin];
            [repeat (destruct (decide (len_map _ = _))); reflexivity|]).
    by apply elem_of_nil in Hin.
  - unfold member. cbn [members_of]. by rewrite !assoc_app, !assoc_field_omitempty.
  - unfold member. cbn [members_of]. by rewrite !assoc_app, !assoc_field_omitempty.
  - unfold member. cbn [members_of]. by rewrite !assoc_app, !assoc_field_omitempty.
Qed.

Lemma StreamRecord_members_witness :
  ∃ d, NewStreamRecord (Some sample.both_images) = Ok d
     ∧ keys_of (marshal_StreamRecord d) =
         [ "ApproximateCreationDateTime"; "Keys"; "NewImage"; "OldImage";
           "SequenceNumber"; "SizeBytes"; "StreamViewType" ]
     ∧ member "StreamViewType" (marshal_StreamRecord d) = Some JNull.
Proof.
  destruct (StreamRecord_members sample.both_images sample.instant eq_refl)
    as (d & Hd & _ & _ & _ & _ & Hview).
  exists d. split; [exact Hd|]. split; [|exact Hview].
  vm_compute in Hd. injection Hd as <-. reflexivity.
Defined.



(** X4. The application [NewApp] builds.  It is built without error, with
    the table and the command as given, and with the pieces of the
    [args] flag between its commas as arguments: joined by commas they
    give the flag back, they are one more than the flag has commas (so
    the empty flag gives one empty argument, not none), none of them
    contains a comma, and any non-empty list of arguments without comma
    is what its comma-separated form is cut into. *)
Theorem NewApp_args (endpoint tbl cmd flag : string) :
  let app := (NewApp endpoint tbl cmd flag).1 in
  (NewApp endpoint tbl cmd flag).2 = None
  ∧ table app = tbl
  ∧ command app = cmd
  ∧ String.concat "," (args app) = flag
  ∧ length (args app) = S (occurrences ","%char flag)
  ∧ Forall (λ piece, occurrences ","%char piece = 0%nat) (args app)
  ∧ (∀ pieces, pieces ≠ [] →
       Forall (λ piece, occurrences ","%char piece = 0%nat) pieces →
       args (NewApp endpoint tbl cmd (String.concat "," pieces)).1 = pieces).
Proof.
  cbn. split_and!; [done..| | | |].
  - apply Split_concat.
  - apply Split_length.
  - apply Split_pieces.
  - intros pieces Hne Hpieces.
    by apply (proj2 (proj2 (proj2 (Split_round_trip ","%char "")))).
Qed.

Lemma NewApp_args_witness :
  args (NewApp "" "orders" "wc" "-l,-w").1 = ["-l"; "-w"]
  ∧ args (NewApp "" "orders" "wc" "").1 = [""].
Proof.
  split.
  - apply (proj2 (proj2 (proj2 (proj2 (proj2 (proj2
             (NewApp_args "" "orders" "wc" "")))))) ["-l"; "-w"]).
    + discriminate.
    + apply Forall_cons. split; [reflexivity|]. apply Forall_singleton. reflexivity.
  - apply (proj2 (proj2 (proj2 (proj2 (proj2 (proj2
             (NewApp_args "" "orders" "wc" "")))))) [""]).
    + discriminate.
    + apply Forall_singleton. reflexivity.
Defined.
